(** * Llama-Han: the evaluation and fine-tuning scripts

    A shallow embedding of [src/llama_evaluate.py] and [src/finetune.py].
    Both scripts are straight-line module-level code.  Every stage of a
    script is a function named after the variable it binds; a stage that can
    raise returns a [result]; a stage with effects (console output, metric
    calls, saved files) is a [script], which keeps what was written before
    an exception.  The services of the model runtime (chat template, generation
    pipeline, metric computations) are variables of a section.

    A Python character is one element of a [string]; the texts of the model
    are those whose characters are below 256. *)

From Stdlib Require Import ZArith Ascii.
From stdpp Require Import base option list strings gmap fin_maps.

Local Open Scope Z_scope.

(** * Python values, exceptions, results *)

(** The scalar values that YAML configuration fields and parsed command-line
    arguments hold. *)
#[warnings="-register-all"]
Inductive pyval : Type :=
  | PyNone
  | PyBool (b : bool)
  | PyInt (z : Z)
  | PyStr (s : string)
  | PyList (l : list pyval).

(** Truth value of an object in a condition: [None], [False], [0], the
    empty string and the empty list are false. *)
Definition truthy (v : pyval) : bool :=
  match v with
  | PyNone => false
  | PyBool b => b
  | PyInt z => negb (z =? 0)
  | PyStr s => negb (bool_decide (s = ""))
  | PyList l => negb (bool_decide (l = []))
  end.

Inductive exn : Type :=
  | AttributeError (name : string)
  | KeyError (key : string)
  | IndexError
  | ValueError
  | OverflowError
  | SystemExit (code : Z)
  | RuntimeError (msg : string).

#[global] Instance exn_eq_dec : EqDecision exn.
Proof. solve_decision. Defined.

Inductive result (A : Type) : Type :=
  | Ok (a : A)
  | Raise (e : exn).
Arguments Ok {A} a.
Arguments Raise {A} e.

#[global] Instance result_ret : MRet result := fun A a => Ok a.
#[global] Instance result_bind : MBind result := fun A B f m =>
  match m with
  | Ok a => f a
  | Raise e => Raise e
  end.

(** [obj.name] on an [argparse.Namespace] and [d[key]] on a dict. *)
Definition getattr (obj : gmap string pyval) (name : string) : result pyval :=
  match obj !! name with
  | Some v => Ok v
  | None => Raise (AttributeError name)
  end.

Definition getitem {V : Type} (d : gmap string V) (key : string) : result V :=
  match d !! key with
  | Some v => Ok v
  | None => Raise (KeyError key)
  end.

(** The conditional expression [a if c else b]: the condition is evaluated
    first, then one branch. *)
Definition if_else (a c b : result pyval) : result pyval :=
  v ← c; if truthy v then a else b.

(** [[f(x) for x in l]] where [f] can raise. *)
Fixpoint comprehension {A B : Type} (f : A → result B) (l : list A) : result (list B) :=
  match l with
  | [] => Ok []
  | x :: l' => y ← f x; ys ← comprehension f l'; Ok (y :: ys)
  end.

(** A [for] loop whose body updates the loop state and can raise. *)
Fixpoint for_each {A S : Type} (body : S → A → result S) (l : list A) (s : S)
    : result S :=
  match l with
  | [] => Ok s
  | x :: l' => s' ← body s x; for_each body l' s'
  end.

(** * Strings *)

Definition nl : string := String "010"%char "".

Fixpoint prefix_of (p s : string) : bool :=
  match p, s with
  | EmptyString, _ => true
  | String a p', String b s' => bool_decide (a = b) && prefix_of p' s'
  | String _ _, EmptyString => false
  end.

(** [s[n:]] *)
Fixpoint drop_chars (n : nat) (s : string) : string :=
  match n, s with
  | O, _ => s
  | S n', String _ s' => drop_chars n' s'
  | S _, EmptyString => EmptyString
  end.

(** [s[:-1]] *)
Fixpoint strip_last (s : string) : string :=
  match s with
  | EmptyString => EmptyString
  | String a EmptyString => EmptyString
  | String a s' => String a (strip_last s')
  end.

(** [sep.join(l)] *)
Fixpoint join (sep : string) (l : list string) : string :=
  match l with
  | [] => ""
  | [x] => x
  | x :: l' => x +:+ sep +:+ join sep l'
  end.

Fixpoint contains_char (c : ascii) (s : string) : bool :=
  match s with
  | EmptyString => false
  | String a s' => bool_decide (a = c) || contains_char c s'
  end.

(** [s.partition(c)]: the text before the first [c] and, when there is one,
    the text after it. *)
Fixpoint split_at (c : ascii) (s : string) : string * option string :=
  match s with
  | EmptyString => (EmptyString, None)
  | String a s' =>
      if bool_decide (a = c) then (EmptyString, Some s')
      else let '(l, r) := split_at c s' in (String a l, r)
  end.

Fixpoint all_digits (s : string) : bool :=
  match s with
  | EmptyString => true
  | String a s' => bool_decide (is_Some (Ascii.is_nat a)) && all_digits s'
  end.

(** The white space that [int] ignores around a number, among the
    characters below 256: tab to carriage return, space, U+0085, U+00A0. *)
Definition int_space (a : ascii) : bool :=
  Ascii.is_space a || bool_decide (a = "133"%char) || bool_decide (a = "160"%char).

Fixpoint lstrip (s : string) : string :=
  match s with
  | EmptyString => EmptyString
  | String a s' => if int_space a then lstrip s' else s
  end.

(** [s.strip()] *)
Definition strip (s : string) : string :=
  String.rev (lstrip (String.rev (lstrip s))).

(** Decimal digits, with single underscores allowed between digits. *)
Fixpoint digit_groups (after_digit : bool) (s : string) : bool :=
  match s with
  | EmptyString => after_digit
  | String a s' =>
      if bool_decide (a = "_"%char) then after_digit && digit_groups false s'
      else bool_decide (is_Some (Ascii.is_nat a)) && digit_groups true s'
  end.

Fixpoint digit_count (s : string) : nat :=
  match s with
  | EmptyString => 0
  | String a s' =>
      match Ascii.is_nat a with
      | Some _ => S (digit_count s')
      | None => digit_count s'
      end
  end.

Fixpoint digits_value (acc : Z) (s : string) : Z :=
  match s with
  | EmptyString => acc
  | String a s' =>
      match Ascii.is_nat a with
      | Some d => digits_value (10 * acc + Z.of_nat d) s'
      | None => digits_value acc s'
      end
  end.

(** The digits of a decimal literal: well grouped, and no more than the
    4300 digits that the interpreter converts by default. *)
Definition decimal (d : string) : option Z :=
  if digit_groups false d && bool_decide (digit_count d ≤ 4300)%nat
  then Some (digits_value 0 d) else None.

(** [int(s)] for text of characters below 256 (the decimal digits among
    them are [0] to [9]): surrounding white space, an optional sign,
    decimal digits. *)
Definition parse_int (s : string) : option Z :=
  match strip s with
  | String "-" d => Z.opp <$> decimal d
  | String "+" d => decimal d
  | d => decimal d
  end.

(** * The command line of the evaluation script ([parse_args]) *)

Module Argparse.

Inductive argtype : Type := TStr | TInt | TBool.

Inductive action : Type :=
  | Store (ty : argtype)
  | Help.

Record argument : Type := {
  option_strings : list string;
  dest : string;
  act : action;
}.

(** [parser.add_argument('--name', type=ty)]: the attribute is the option
    string without its dashes, the default is [None]. *)
Definition add_argument (flag : string) (ty : argtype) : argument :=
  {| option_strings := [flag]; dest := drop_chars 2 flag; act := Store ty |}.

(** [ArgumentParser(...)] comes with [-h/--help]. *)
Definition help_argument : argument :=
  {| option_strings := ["-h"; "--help"]; dest := "help"; act := Help |}.

(** The number of strings the action takes: one for a stored value, none
    for help. *)
Definition arg_count (a : argument) : nat :=
  match act a with
  | Store _ => 1
  | Help => 0
  end.

(** [_get_value]: [type(arg_string)]; a failed conversion is an error of the
    parser. *)
Definition get_value (ty : argtype) (s : string) : result pyval :=
  match ty with
  | TStr => Ok (PyStr s)
  | TInt =>
      match parse_int s with
      | Some z => Ok (PyInt z)
      | None => Raise (SystemExit 2)
      end
  | TBool => Ok (PyBool (negb (bool_decide (s = ""))))
  end.

(** [l.remove(x)] when [x] is there. *)
Fixpoint remove_first (x : string) (l : list string) : list string :=
  match l with
  | [] => []
  | y :: l' => if bool_decide (y = x) then l' else y :: remove_first x l'
  end.

(** [_get_values]: the first [--] is taken out of the strings; one string
    gives its converted value, any other number the list of the converted
    values. *)
Definition get_values (a : argument) (arg_strings : list string) : result pyval :=
  let arg_strings := remove_first "--" arg_strings in
  match act a with
  | Store ty =>
      match arg_strings with
      | [s] => get_value ty s
      | _ => vs ← comprehension (get_value ty) arg_strings; Ok (PyList vs)
      end
  | Help => Ok (PyList [])
  end.

(** [take_action]: a stored value is set on the namespace; help prints the
    usage and exits with status 0. *)
Definition take_action (ns : gmap string pyval) (t : argument * list string)
    : result (gmap string pyval) :=
  values ← get_values t.1 t.2;
  match act t.1 with
  | Store _ => Ok (<[dest t.1 := values]> ns)
  | Help => Raise (SystemExit 0)
  end.

(** Every stored attribute starts as [None]. *)
Fixpoint defaults (parser : list argument) : gmap string pyval :=
  match parser with
  | [] => ∅
  | a :: parser' =>
      match act a with
      | Store _ => <[dest a := PyNone]> (defaults parser')
      | Help => defaults parser'
      end
  end.

(** [_option_string_actions], in the order of declaration. *)
Definition option_string_actions (parser : list argument)
    : list (string * argument) :=
  a ← parser; (λ o, (o, a)) <$> option_strings a.

Definition find_option (parser : list argument) (o : string) : option argument :=
  snd <$> head (filter (λ oa, oa.1 = o) (option_string_actions parser)).

(** What [_parse_optional] makes of one command-line string: an argument
    ([None] in the source), an option tuple (its action is [None] for an
    option-like string that names no option), or the error for an ambiguous
    abbreviation. *)
Inductive token_kind : Type :=
  | Positional
  | Optional (a : option argument) (option_string : string)
      (explicit_arg : option string)
  | Ambiguous.

(** [^-\d+$|^-\d*\.\d+$]; [$] also matches before a final newline. *)
Definition negative_number_like (s : string) : bool :=
  match s with
  | String "-" d =>
      let d := match String.rev d with
               | String "010" r => String.rev r
               | _ => d
               end in
      match split_at "." d with
      | (i, None) => all_digits i && negb (bool_decide (i = ""))
      | (i, Some f) => all_digits i && all_digits f && negb (bool_decide (f = ""))
      end
  | _ => false
  end.

(** [s[:2]] *)
Definition first_two (s : string) : string :=
  match s with
  | String a (String b _) => String a (String b "")
  | _ => s
  end.

(** [_get_option_tuples]: a string with two dashes is split at [=] and
    matches the option strings it abbreviates; a string with one dash matches
    the option string made of its first two characters, the rest being the
    attached argument, and the option strings it abbreviates. *)
Definition get_option_tuples (parser : list argument) (s : string)
    : list (argument * string * option string) :=
  if prefix_of "--" s then
    let option_prefix := (split_at "=" s).1 in
    let explicit_arg := (split_at "=" s).2 in
    omap (λ oa, if prefix_of option_prefix oa.1
                then Some (oa.2, oa.1, explicit_arg) else None)
         (option_string_actions parser)
  else
    omap (λ oa, if bool_decide (oa.1 = first_two s)
                then Some (oa.2, oa.1, Some (drop_chars 2 s))
                else if prefix_of s oa.1 then Some (oa.2, oa.1, None)
                else None)
         (option_string_actions parser).

(** [_parse_optional] *)
Definition parse_optional (parser : list argument) (s : string) : token_kind :=
  if bool_decide (s = "") then Positional
  else if negb (prefix_of "-" s) then Positional
  else
    match find_option parser s with
    | Some a => Optional (Some a) s None
    | None =>
        if bool_decide (String.length s = 1%nat) then Positional
        else
          match (if contains_char "=" s
                 then find_option parser (split_at "=" s).1 else None) with
          | Some a => Optional (Some a) (split_at "=" s).1 (split_at "=" s).2
          | None =>
              match get_option_tuples parser s with
              | _ :: _ :: _ => Ambiguous
              | [t] => Optional (Some t.1.1) t.1.2 t.2
              | [] =>
                  if negative_number_like s then Positional
                  else if contains_char " " s then Positional
                  else Optional None s None
              end
          end
    end.

(** The pattern of the command line: [A] for an argument, [O] with its
    option tuple for an option, [-] for [--]. *)
Inductive part : Type :=
  | PatA
  | PatO (a : option argument) (option_string : string)
      (explicit_arg : option string)
  | PatDashes.

(** The first loop of [_parse_known_args]: every string is read, and gets
    its part of the pattern, before any action is taken; the strings after
    [--] are arguments. *)
Fixpoint arg_strings_pattern (parser : list argument) (after_dashes : bool)
    (arg_strings : list string) : result (list (string * part)) :=
  match arg_strings with
  | [] => Ok []
  | s :: rest =>
      if after_dashes then
        parts ← arg_strings_pattern parser true rest; Ok ((s, PatA) :: parts)
      else if bool_decide (s = "--") then
        parts ← arg_strings_pattern parser true rest; Ok ((s, PatDashes) :: parts)
      else
        match parse_optional parser s with
        | Ambiguous => Raise (SystemExit 2)
        | Positional =>
            parts ← arg_strings_pattern parser false rest; Ok ((s, PatA) :: parts)
        | Optional a o e =>
            parts ← arg_strings_pattern parser false rest;
            Ok ((s, PatO a o e) :: parts)
        end
  end.

(** [option_string[1] not in chars] *)
Definition single_dash (o : string) : bool :=
  match o with
  | String _ (String "-" _) => false
  | _ => true
  end.

(** [consume_optional] without an explicit argument: the action takes its
    strings from the ones that follow; the result tells whether the next
    string was taken. *)
Definition match_following (a : argument) (following : list (string * part))
    : result (list (argument * list string) * bool) :=
  match arg_count a with
  | O => Ok ([(a, [])], false)
  | _ =>
      match following with
      | (s, PatA) :: _ => Ok ([(a, [s])], true)
      | _ => Raise (SystemExit 2)
      end
  end.

(** [consume_optional] with an explicit argument: an action that takes one
    string takes it; a single-dash option that takes none reads the
    argument as further single-dash options. *)
Fixpoint explicit_loop (parser : list argument) (a : argument)
    (option_string explicit_arg : string) (following : list (string * part))
    : result (list (argument * list string) * bool) :=
  match arg_count a with
  | O =>
      match explicit_arg with
      | String c rest =>
          if single_dash option_string then
            let option_string' := String "-" (String c "") in
            match find_option parser option_string' with
            | Some a' =>
                r ← match rest with
                    | EmptyString => match_following a' following
                    | _ => explicit_loop parser a' option_string' rest following
                    end;
                Ok ((a, []) :: r.1, r.2)
            | None => Raise (SystemExit 2)
            end
          else Raise (SystemExit 2)
      | EmptyString => Raise (SystemExit 2)
      end
  | _ => Ok ([(a, [explicit_arg])], false)
  end.

Definition consume_optional (parser : list argument) (a : argument)
    (option_string : string) (explicit_arg : option string)
    (following : list (string * part))
    : result (list (argument * list string) * bool) :=
  match explicit_arg with
  | Some e => explicit_loop parser a option_string e following
  | None => match_following a following
  end.

(** The second loop of [_parse_known_args], from left to right: an option
    takes its actions; an argument that no option takes, a [--] and an
    unknown option go to the extras. *)
Fixpoint consume (parser : list argument) (strings : list (string * part))
    (taken : bool) (ns : gmap string pyval) (extras : list string)
    : result (gmap string pyval * list string) :=
  match strings with
  | [] => Ok (ns, extras)
  | (s, p) :: rest =>
      if taken then consume parser rest false ns extras
      else
        match p with
        | PatO (Some a) o e =>
            r ← consume_optional parser a o e rest;
            ns' ← for_each take_action r.1 ns;
            consume parser rest r.2 ns' extras
        | _ => consume parser rest false ns (extras ++ [s])
        end
  end.

Definition parse_known_args (parser : list argument) (arg_strings : list string)
    : result (gmap string pyval * list string) :=
  pattern ← arg_strings_pattern parser false arg_strings;
  consume parser pattern false (defaults parser) [].

(** [parse_args]: extras are an error. *)
Definition parse_args (parser : list argument) (arg_strings : list string)
    : result (gmap string pyval) :=
  r ← parse_known_args parser arg_strings;
  match r.2 with
  | [] => Ok r.1
  | _ :: _ => Raise (SystemExit 2)
  end.

End Argparse.

(** [parse_args()], lines 15-23. *)
Definition parser : list Argparse.argument :=
  [ Argparse.help_argument;
    Argparse.add_argument "--model_path" Argparse.TStr;
    Argparse.add_argument "--new_model_path" Argparse.TStr;
    Argparse.add_argument "--dataset_path" Argparse.TStr;
    Argparse.add_argument "--dataset_config" Argparse.TStr;
    Argparse.add_argument "--num_shots" Argparse.TInt;
    Argparse.add_argument "--finetune" Argparse.TBool ].

Definition parse_args (argv : list string) : result (gmap string pyval) :=
  Argparse.parse_args parser argv.


(** * Initialize Configurations, lines 26-41

    The loaded YAML document is a mapping of sections, each a mapping of
    named fields. *)

Definition model_path (args model_cfg : gmap string pyval) : result pyval :=
  if_else (getattr args "model_path") (getattr args "model_path")
          (getitem model_cfg "model_path").

Definition new_model_path (args model_cfg : gmap string pyval) : result pyval :=
  if_else (getattr args "new_model_path") (getattr args "new_model_path")
          (getitem model_cfg "new_model_path").

Definition dataset_path (args model_cfg : gmap string pyval) : result pyval :=
  if_else (getattr args "dataset_path") (getattr args "dataset_path")
          (getitem model_cfg "dataset_path").

Definition dataset_config (args model_cfg : gmap string pyval) : result pyval :=
  if_else (getattr args "dataset_config") (getattr args "dataset_config")
          (getitem model_cfg "dataset_config").

Definition num_shots (args eval_cfg : gmap string pyval) : result pyval :=
  if_else (getattr args "num_shots") (getattr args "num_shots")
          (getitem eval_cfg "num_shots").

Definition finetune (args : gmap string pyval) : result pyval :=
  if_else (getattr args "finetune") (getattr args "finetune")
          (Ok (PyBool false)).

Definition cot (args eval_cfg : gmap string pyval) : result pyval :=
  if_else (getattr args "cot") (getattr args "cot") (getitem eval_cfg "cot").

Record settings : Type := {
  s_model_path : pyval;
  s_new_model_path : pyval;
  s_dataset_path : pyval;
  s_dataset_config : pyval;
  s_num_shots : pyval;
  s_finetune : pyval;
  s_cot : pyval;
}.

(** Lines 26-41 in order, from the command line and the loaded
    configuration. *)
Definition setup (argv : list string) (config : gmap string (gmap string pyval))
    : result settings :=
  args ← parse_args argv;
  model_cfg ← getitem config "model_config";
  eval_cfg ← getitem config "eval_config";
  access_token ← getitem config "access_token";
  v1 ← model_path args model_cfg;
  v2 ← new_model_path args model_cfg;
  v3 ← dataset_path args model_cfg;
  v4 ← dataset_config args model_cfg;
  v5 ← num_shots args eval_cfg;
  v6 ← finetune args;
  v7 ← cot args eval_cfg;
  Ok {| s_model_path := v1; s_new_model_path := v2; s_dataset_path := v3;
        s_dataset_config := v4; s_num_shots := v5; s_finetune := v6;
        s_cot := v7 |}.

(** * Dataset rows and the prompt template, lines 82-98 *)

Record Row : Type := {
  classical : string;
  modern : string;
  english : string;
}.

(** [select_columns([...])], lines 84-87: the row dicts of the test split. *)
Definition select_columns (cot : bool) (r : Row) : gmap string string :=
  if cot then
    <["classical" := classical r]> (<["modern" := modern r]>
      (<["english" := english r]> ∅))
  else
    <["classical" := classical r]> (<["english" := english r]> ∅).

Definition dataset_test (cot : bool) (test : list Row) : list (gmap string string) :=
  select_columns cot <$> test.

(** [_check_valid_indices_value] *)
Definition check_valid_indices_value (index size : Z) : result () :=
  if (index <? 0) && (index + size <? 0) || (size <=? index)
  then Raise IndexError else Ok ().

(** [_select_contiguous]: an empty dataset is returned as it is; otherwise
    the first and the last index are checked and the rows sliced. *)
Definition select_contiguous {A : Type} (ds : list A) (start count : Z)
    : result (list A) :=
  if bool_decide (length ds = 0%nat) then Ok ds
  else
    check_valid_indices_value start (Z.of_nat (length ds));;
    check_valid_indices_value (start + count - 1) (Z.of_nat (length ds));;
    Ok (take (Z.to_nat count) (drop (Z.to_nat start) ds)).

(** [ds.select(range(start, stop))].  An empty dataset is returned as it
    is.  A range that is contiguous and starts at 0 or later is a slice; an
    empty range otherwise selects nothing; a range with negative indices
    goes through an array of unsigned indices, which refuses them once the
    two ends are checked. *)
Definition select {A : Type} (ds : list A) (start stop : Z)
    : result (list A) :=
  if bool_decide (length ds = 0%nat) then Ok ds
  else if (start <=? stop) && (0 <=? start)
  then select_contiguous ds start (stop - start)
  else if stop <=? start then select_contiguous ds 0 0
  else
    check_valid_indices_value (stop - 1) (Z.of_nat (length ds));;
    check_valid_indices_value start (Z.of_nat (length ds));;
    Raise OverflowError.

Definition dataset_examples {A : Type} (num_shots : Z) (dataset_test : list A)
    : result (list A) :=
  select dataset_test 0 num_shots.

Definition dataset_predict {A : Type} (num_shots : Z) (dataset_test : list A)
    : result (list A) :=
  select dataset_test num_shots (Z.of_nat (length dataset_test)).

(** [str.format] with keyword arguments, for templates made of literal text
    and [{name}] replacement fields. *)
Inductive piece : Type :=
  | Literal (s : string)
  | Field (name : string).

Fixpoint parse_format (in_field : bool) (acc : string) (s : string)
    : result (list piece) :=
  match s with
  | EmptyString =>
      if in_field then Raise ValueError else Ok [Literal (String.rev acc)]
  | String c s' =>
      if in_field then
        if bool_decide (c = "}"%char) then
          ps ← parse_format false "" s'; Ok (Field (String.rev acc) :: ps)
        else if bool_decide (c = "{"%char) then Raise ValueError
        else parse_format true (String c acc) s'
      else
        if bool_decide (c = "{"%char) then
          ps ← parse_format true "" s'; Ok (Literal (String.rev acc) :: ps)
        else if bool_decide (c = "}"%char) then Raise ValueError
        else parse_format false (String c acc) s'
  end.

Fixpoint render (ps : list piece) (kwargs : gmap string string) : result string :=
  match ps with
  | [] => Ok ""
  | Literal s :: ps' => r ← render ps' kwargs; Ok (s +:+ r)
  | Field name :: ps' =>
      v ← getitem kwargs name; r ← render ps' kwargs; Ok (v +:+ r)
  end.

Definition format (template : string) (kwargs : gmap string string) : result string :=
  ps ← parse_format false "" template; render ps kwargs.

(** Lines 91-94. *)
Definition prompt_template (cot : bool) : string :=
  if cot then
    "Classical: {classical}" +:+ nl +:+ "Modern: {modern}" +:+ nl +:+ "English: {english}"
  else
    "Classical: {classical}" +:+ nl +:+ "English: {english}".

(** Lines 95-98. *)
Definition prompt_examples (cot : bool) (num_shots : Z)
    (dataset_examples : list (gmap string string)) : result string :=
  if bool_decide (num_shots = 0) then Ok ""
  else
    rows ← comprehension (format (prompt_template cot)) dataset_examples;
    Ok (join (nl +:+ nl) rows).

(** * Test prompts and reference translations, lines 100-121 *)

Definition cot_instruction : string :=
  "Translate the following sentence from classical Chinese into modern Chinese and then into English. Provide only the translation:".

Definition direct_instruction : string :=
  "Translate the following sentence from Classical Chinese into English. Provide only the translation:".

(** The target row with its answer fields left empty: the [format] calls of
    lines 108 and 113. *)
Definition unanswered (cot : bool) (c : string) : result string :=
  if cot then
    format (prompt_template cot)
      (<["classical" := c]> (<["modern" := ""]> (<["english" := ""]> ∅)))
  else
    format (prompt_template cot)
      (<["classical" := c]> (<["english" := ""]> ∅)).

(** Lines 105-113. *)
Definition prompt (cot : bool) (prompt_examples : string)
    (row : gmap string string) : result string :=
  if cot then
    c ← getitem row "classical";
    t ← unanswered cot c;
    Ok (((prompt_examples +:+ nl) +:+ cot_instruction) +:+ strip_last t)
  else
    c ← getitem row "classical";
    t ← unanswered cot c;
    Ok (((prompt_examples +:+ nl) +:+ direct_instruction) +:+ strip_last t).

(** * Scripts with effects

    A script step reads and updates a state (the console and metric-call
    log, or the file system) and returns a value or raises; what was written
    before an exception stays written. *)

Definition script (S A : Type) : Type := S → result A * S.

#[global] Instance script_ret {S : Type} : MRet (script S) :=
  fun A a s => (Ok a, s).
#[global] Instance script_bind {S : Type} : MBind (script S) :=
  fun A B f m s =>
    match m s with
    | (Ok a, s') => f a s'
    | (Raise e, s') => (Raise e, s')
    end.

Definition lift {S A : Type} (r : result A) : script S A := fun s => (r, s).

(** [for x in l: body(x)] *)
Fixpoint for_in {S A : Type} (l : list A) (body : A → script S unit) : script S unit :=
  match l with
  | [] => mret ()
  | x :: l' => body x;; for_in l' body
  end.

(** [l[i]] for [0 <= i]. *)
Definition index {A : Type} (l : list A) (i : nat) : result A :=
  match l !! i with
  | Some x => Ok x
  | None => Raise IndexError
  end.

(** * Generation, metrics and report of the evaluation script *)

Inductive metric : Type := Sacrebleu | Meteor | Chrf.

#[global] Instance metric_eq_dec : EqDecision metric.
Proof. solve_decision. Defined.

Section Evaluation.

(** The result mapping of a metric. *)
Variable Results : Type.

(** [pipeline.tokenizer.apply_chat_template] on the one-message
    conversation whose user content is the argument. *)
Variable apply_chat_template : string → string.

(** [pipeline(prompts, ...)]: per prompt, the list of generated texts. *)
Variable pipeline : list string → result (list (list string)).

(** [evaluate.load(name).compute(predictions=..., references=...)] *)
Variable compute : metric → list string → list (list string) → result Results.

(** An object given to [print]. *)
Inductive printed : Type :=
  | PStr (s : string)
  | PInt (z : Z)
  | PResults (r : Results).

Inductive event : Type :=
  | Print (args : list printed)
  | Called (m : metric) (predictions : list string) (references : list (list string)).

Definition print (args : list printed) : script (list event) () :=
  fun out => (Ok (), out ++ [Print args]).

Definition metric_compute (m : metric) (predictions : list string)
    (references : list (list string)) : script (list event) Results :=
  fun out => (compute m predictions references, out ++ [Called m predictions references]).

(** The body of the loop at lines 103-121, on the pair
    [(prompts, references)]. *)
Definition append_prompt (cot : bool) (prompt_examples : string)
    (st : list string * list (list string)) (row : gmap string string)
    : result (list string * list (list string)) :=
  p ← prompt cot prompt_examples row;
  let message := apply_chat_template p in
  reference ← getitem row "english";
  Ok (st.1 ++ [message], st.2 ++ [[reference]]).

Definition prompts_references (cot : bool) (prompt_examples : string)
    (dataset_predict : list (gmap string string))
    : result (list string * list (list string)) :=
  for_each (append_prompt cot prompt_examples) dataset_predict ([], []).

(** Line 134. *)
Definition predictions (outputs : list (list string)) (prompts : list string)
    : result (list string) :=
  comprehension
    (λ '(output, prompt),
       generated_text ← index output 0;
       Ok (drop_chars (String.length prompt) generated_text))
    (zip outputs prompts).

(** Lines 125-134. *)
Definition generation (prompts : list string) : script (list event) (list string) :=
  print [PStr "# of test samples:"; PInt (Z.of_nat (length prompts))];;
  outputs ← lift (pipeline prompts);
  lift (predictions outputs prompts).

(** Lines 136-150. *)
Definition evaluation (predictions : list string) (references : list (list string))
    : script (list event) (Results * Results * Results) :=
  sacrebleu_results ← metric_compute Sacrebleu predictions references;
  print [PStr "------------- sacrebleu_results -------------"];;
  print [PResults sacrebleu_results];;
  meteor_results ← metric_compute Meteor predictions references;
  print [PStr "------------- meteor_results -------------"];;
  print [PResults meteor_results];;
  chrf_results ← metric_compute Chrf predictions references;
  print [PStr "------------- chrf_results -------------"];;
  print [PResults chrf_results];;
  mret (sacrebleu_results, meteor_results, chrf_results).

(** The body of the loop at lines 155-157. *)
Definition example_pair (predictions : list string)
    (references : list (list string)) (i : nat) : script (list event) () :=
  p ← lift (index predictions i);
  print [PStr "system:"; PStr p];;
  r ← lift (index references i);
  r0 ← lift (index r 0);
  print [PStr "reference:"; PStr r0].

(** Lines 152-157. *)
Definition example (predictions : list string) (references : list (list string))
    : script (list event) () :=
  print [PStr ""];;
  print [PStr "------------- example -------------"];;
  for_in (seq 0 10) (example_pair predictions references).

(** Lines 100-157: from the prompt loop to the end of the script. *)
Definition report (cot : bool) (prompt_examples : string)
    (dataset_predict : list (gmap string string)) : script (list event) () :=
  '(prompts, references) ← lift (prompts_references cot prompt_examples dataset_predict);
  predictions ← generation prompts;
  evaluation predictions references;;
  example predictions references.

End Evaluation.

Arguments print {Results} args.
Arguments metric_compute {Results} compute m predictions references.
Arguments generation {Results} pipeline prompts.
Arguments evaluation {Results} compute predictions references.
Arguments example_pair {Results} predictions references i.
Arguments example {Results} predictions references.
Arguments report {Results} apply_chat_template pipeline compute cot
  prompt_examples dataset_predict.
Arguments PStr {Results} s.
Arguments PInt {Results} z.
Arguments PResults {Results} r.
Arguments Print {Results} args.
Arguments Called {Results} m predictions references.

(** * Saving and merging in the fine-tuning script, lines 118-134 *)

Section Finetune.

Variables Model Adapter Tokenizer : Type.

(** What [save_pretrained] leaves in a directory: each call writes its own
    kind of files and keeps the others. *)
Record directory : Type := {
  adapter_files : option Adapter;
  model_files : option Model;
  tokenizer_files : option Tokenizer;
}.

Definition empty_directory : directory :=
  {| adapter_files := None; model_files := None; tokenizer_files := None |}.

Record world : Type := {
  files : gmap string directory;
  console : list string;
}.

Definition listdir (w : world) (path : string) : directory :=
  default empty_directory (files w !! path).

Definition save_adapter (a : Adapter) (path : string) : script world () :=
  fun w =>
    let d := listdir w path in
    (Ok (),
     {| files := <[path := {| adapter_files := Some a;
                              model_files := model_files d;
                              tokenizer_files := tokenizer_files d |}]> (files w);
        console := console w |}).

Definition save_model (m : Model) (path : string) : script world () :=
  fun w =>
    let d := listdir w path in
    (Ok (),
     {| files := <[path := {| adapter_files := adapter_files d;
                              model_files := Some m;
                              tokenizer_files := tokenizer_files d |}]> (files w);
        console := console w |}).

Definition save_tokenizer (t : Tokenizer) (path : string) : script world () :=
  fun w =>
    let d := listdir w path in
    (Ok (),
     {| files := <[path := {| adapter_files := adapter_files d;
                              model_files := model_files d;
                              tokenizer_files := Some t |}]> (files w);
        console := console w |}).

Definition print_line (s : string) : script world () :=
  fun w => (Ok (), {| files := files w; console := console w ++ [s] |}).

(** [AutoModelForCausalLM.from_pretrained(model_path)] *)
Variable from_pretrained : string → result Model.

(** [PeftModel.from_pretrained(model, path)] reads the adapter saved in
    [path]. *)
Definition peft_from_pretrained (m : Model) (path : string)
    : script world (Model * Adapter) :=
  fun w =>
    match adapter_files (listdir w path) with
    | Some a => (Ok (m, a), w)
    | None => (Raise ValueError, w)
    end.

Variable merge_and_unload : Model * Adapter → Model.

(** Lines 118-134; [trained] is [trainer.model] after training.  Clearing
    the GPU cache and setting the padding of the tokenizer write no file. *)
Definition save_and_merge (model_path new_model_path : string)
    (trained : Adapter) (tokenizer : Tokenizer) : script world () :=
  let new_model_path_lora := new_model_path +:+ "-lora" in
  save_adapter trained new_model_path_lora;;
  print_line ("Model training complete and peft adapter saved to: " +:+ new_model_path_lora);;
  model ← lift (from_pretrained model_path);
  model ← peft_from_pretrained model new_model_path_lora;
  let model := merge_and_unload model in
  save_model model new_model_path;;
  save_tokenizer tokenizer new_model_path;;
  print_line ("Model load complete and full model saved to: " +:+ new_model_path).

End Finetune.

Arguments adapter_files {Model Adapter Tokenizer} d.
Arguments model_files {Model Adapter Tokenizer} d.
Arguments tokenizer_files {Model Adapter Tokenizer} d.
Arguments empty_directory {Model Adapter Tokenizer}.
Arguments files {Model Adapter Tokenizer} w.
Arguments console {Model Adapter Tokenizer} w.
Arguments listdir {Model Adapter Tokenizer} w path.
Arguments save_adapter {Model Adapter Tokenizer} a path.
Arguments save_model {Model Adapter Tokenizer} m path.
Arguments save_tokenizer {Model Adapter Tokenizer} t path.
Arguments print_line {Model Adapter Tokenizer} s.
Arguments peft_from_pretrained {Model Adapter Tokenizer} m path.
Arguments save_and_merge {Model Adapter Tokenizer} from_pretrained
  merge_and_unload model_path new_model_path trained tokenizer.

(** * Texts the statements below compare the code with *)

(** The instruction of the mode. *)
Definition instruction (cot : bool) : string :=
  if cot then cot_instruction else direct_instruction.

(** [joined sep rows block]: [block] is the first of [rows], followed by
    each later row with [sep] before it. *)
Inductive joined (sep : string) : list string → string → Prop :=
  | joined_one (row : string) : joined sep [row] row
  | joined_more (row : string) (rows : list string) (block : string) :
      joined sep rows block →
      joined sep (row :: rows) (row +:+ sep +:+ block).

(** A row as an example of the few-shot block. *)
Definition formatted_row (cot : bool) (r : Row) : string :=
  if cot then
    "Classical: " +:+ classical r +:+ nl +:+ "Modern: " +:+ modern r +:+ nl
      +:+ "English: " +:+ english r
  else
    "Classical: " +:+ classical r +:+ nl +:+ "English: " +:+ english r.

(** The target row up to and including the last label, without the space
    that follows it. *)
Definition target_text (cot : bool) (c : string) : string :=
  if cot then "Classical: " +:+ c +:+ nl +:+ "Modern: " +:+ nl +:+ "English:"
  else "Classical: " +:+ c +:+ nl +:+ "English:".

(** The prompt of a row after the chat template. *)
Definition prompt_of_row (apply_chat_template : string → string) (cot : bool)
    (prompt_examples : string) (r : Row) : string :=
  apply_chat_template
    (((prompt_examples +:+ nl) +:+ instruction cot) +:+ target_text cot (classical r)).

(** The two lines that the example loop prints for index [i]. *)
Definition example_lines {Results : Type} (predictions : list string)
    (references : list (list string)) (i : nat) : list (event Results) :=
  [Print [PStr "system:"; PStr (default "" (predictions !! i))];
   Print [PStr "reference:";
          PStr (default "" (references !! i ≫= head))]].

Definition is_Ok_result {A : Type} (r : result A) : Prop :=
  match r with
  | Ok _ => True
  | Raise _ => False
  end.

(** The metric calls of a log, in order. *)
Definition calls {Results : Type} (log : list (event Results))
    : list (metric * list string * list (list string)) :=
  omap (λ e, match e with
             | Called m p r => Some (m, p, r)
             | Print _ => None
             end) log.

(** Some string of [argv] names the option stored in [flag]. *)
Definition mentions (flag : string) (argv : list string) : bool :=
  existsb (λ tok, match Argparse.parse_optional parser tok with
                  | Argparse.Optional (Some a) _ _ =>
                      bool_decide (Argparse.dest a = flag)
                  | _ => false
                  end) argv.

(** The attributes that [parse_args] declares. *)
Definition flags : list string :=
  ["model_path"; "new_model_path"; "dataset_path"; "dataset_config";
   "num_shots"; "finetune"].

(** The values a conversion of the given type produces. *)
Definition has_type (ty : Argparse.argtype) (v : pyval) : Prop :=
  match ty, v with
  | Argparse.TStr, PyStr _ | Argparse.TInt, PyInt _ | Argparse.TBool, PyBool _ => True
  | _, _ => False
  end.

(** One attribute assignment of the parser. *)
Definition assign (ns : gmap string pyval) (ax : Argparse.argument * pyval)
    : gmap string pyval :=
  <[Argparse.dest ax.1 := ax.2]> ns.

(** The override rule of lines 35-40 for one flag: a true value on the
    command line wins, an absent flag gives the fallback. *)
Definition overrides (args : gmap string pyval) (flag : string)
    (effective fallback : result pyval) : Prop :=
  (∀ v, args !! flag = Some v → truthy v = true → effective = Ok v) ∧
  (args !! flag = Some PyNone → effective = fallback).

(** * Sample data *)

Definition sample_row : Row :=
  {| classical := "AB"; modern := "ab"; english := "cd" |}.

(** A pipeline that returns each prompt followed by a continuation. *)
Definition echo_pipeline (prompts : list string) : result (list (list string)) :=
  Ok ((λ p, [p +:+ "out"]) <$> prompts).

(** A model hub with every base model, and a merge on numbers. *)
Definition sample_hub (path : string) : result nat := Ok 7%nat.

Definition sample_merge (ma : nat * nat) : nat := (ma.1 + ma.2)%nat.

(** Metric services: one where sacrebleu fails, one where meteor fails. *)
Definition sacrebleu_down (m : metric) (predictions : list string)
    (references : list (list string)) : result nat :=
  match m with
  | Sacrebleu => Raise (RuntimeError "sacrebleu")
  | _ => Ok (length predictions)
  end.

Definition meteor_down (m : metric) (predictions : list string)
    (references : list (list string)) : result nat :=
  match m with
  | Meteor => Raise (RuntimeError "meteor")
  | _ => Ok (length predictions)
  end.


(** * Loading the model in the evaluation script, lines 53-66 *)

Section Loading.

Variables Model Adapter Tokenizer : Type.

(** [AutoModelForCausalLM.from_pretrained(model_path, ...)] and
    [AutoTokenizer.from_pretrained(model_path, ...)] *)
Variable from_pretrained : string → result Model.
Variable tokenizer_from_pretrained : string → result Tokenizer.

Variable merge_and_unload : Model * Adapter → Model.

Definition load_model (model_path new_model_path : string) (finetune : bool)
    : script (world Model Adapter Tokenizer) (Model * Tokenizer) :=
  model ← lift (from_pretrained model_path);
  tokenizer ← lift (tokenizer_from_pretrained model_path);
  if finetune then
    model ← peft_from_pretrained model new_model_path;
    let model := merge_and_unload model in
    mret (model, tokenizer)
  else mret (model, tokenizer).

End Loading.

Arguments load_model {Model Adapter Tokenizer} from_pretrained
  tokenizer_from_pretrained merge_and_unload model_path new_model_path finetune.

(** * Keyword arguments of the fine-tuning script, lines 82-101 *)

(** The keyword arguments [name=cfg[key]] of a call, read in the order they
    are written; the values of the configuration are passed as they are. *)
Fixpoint keywords {V : Type} (cfg : gmap string V) (args : list (string * string))
    : result (gmap string V) :=
  match args with
  | [] => Ok ∅
  | (name, key) :: args' =>
      v ← getitem cfg key;
      kw ← keywords cfg args';
      Ok (<[name := v]> kw)
  end.

Definition training_keys : list string :=
  ["output_dir"; "num_train_epochs"; "per_device_train_batch_size";
   "gradient_accumulation_steps"; "optim"; "save_steps"; "logging_steps";
   "learning_rate"; "weight_decay"; "fp16"; "bf16"; "max_grad_norm";
   "max_steps"; "warmup_ratio"; "group_by_length"; "lr_scheduler_type"].

Section Trainer.

Variables V T : Type.

(** The constructor of [TrainingArguments], with its own validation of the
    arguments. *)
Variable TrainingArguments : gmap string V → result T.

(** [TrainingArguments(...)], lines 83-101: every argument is the field of
    the same name; the arguments are read, then the constructor is called. *)
Definition training_arguments (train_args_cfg : gmap string V) : result T :=
  kw ← keywords train_args_cfg ((λ k, (k, k)) <$> training_keys);
  TrainingArguments kw.

End Trainer.

Arguments training_arguments {V T} TrainingArguments train_args_cfg.

(** * More sample data *)

Definition ten_rows : list Row := replicate 10 sample_row.

Definition all_metrics_up (m : metric) (predictions : list string)
    (references : list (list string)) : result nat :=
  Ok (length predictions).

Definition sample_tokenizer_hub (path : string) : result string := Ok "tok".

Definition sample_training_cfg : gmap string pyval :=
  list_to_map ((λ k, (k, PyInt 1)) <$> training_keys).

(** A constructor that refuses half precision and bfloat16 together. *)
Definition sample_constructor (kw : gmap string pyval) : result (gmap string pyval) :=
  match kw !! "fp16", kw !! "bf16" with
  | Some (PyBool true), Some (PyBool true) => Raise ValueError
  | _, _ => Ok kw
  end.
(** * Facts about strings *)

Lemma app_String (a : ascii) (s t : string) : String a s +:+ t = String a (s +:+ t).
Proof. done. Qed.

Lemma app_empty_r (s : string) : s +:+ "" = s.
Proof. induction s as [|a s IH]; [done|]. by rewrite app_String, IH. Qed.

Lemma app_assoc_s (s t u : string) : (s +:+ t) +:+ u = s +:+ t +:+ u.
Proof. induction s as [|a s IH]; [done|]. rewrite !app_String. by rewrite IH. Qed.

Lemma length_app_s (s t : string) :
  String.length (s +:+ t) = (String.length s + String.length t)%nat.
Proof. induction s as [|a s IH]; [done|]. rewrite app_String. simpl. by rewrite IH. Qed.

Lemma drop_chars_app (p s : string) : drop_chars (String.length p) (p +:+ s) = s.
Proof. induction p as [|a p IH]; [by destruct s|]. by rewrite app_String. Qed.

Lemma strip_last_snoc (s : string) (a : ascii) : strip_last (s +:+ String a "") = s.
Proof.
  induction s as [|b s IH]; [done|].
  rewrite app_String. simpl. rewrite IH.
  destruct s; done.
Qed.

Lemma prefix_of_app (p s : string) : prefix_of p (p +:+ s) = true.
Proof.
  induction p as [|a p IH]; [done|].
  rewrite app_String. simpl. rewrite IH. by rewrite bool_decide_true.
Qed.

Lemma app_neq_self (p s : string) : s ≠ "" → p +:+ s ≠ p.
Proof.
  intros Hs Heq. apply (f_equal String.length) in Heq.
  rewrite length_app_s in Heq. destruct s; [done|]. simpl in Heq. lia.
Qed.

(** * The prompt template *)

Lemma parse_prompt_template (cot : bool) :
  parse_format false "" (prompt_template cot)
  = Ok (if cot
        then [Literal "Classical: "; Field "classical"; Literal (nl +:+ "Modern: ");
              Field "modern"; Literal (nl +:+ "English: "); Field "english";
              Literal ""]
        else [Literal "Classical: "; Field "classical"; Literal (nl +:+ "English: ");
              Field "english"; Literal ""]).
Proof. by destruct cot. Qed.

Ltac render_fields :=
  cbn [mbind result_bind render]; unfold getitem; simplify_map_eq;
  cbn [mbind result_bind]; by rewrite !app_empty_r, !app_assoc_s.

Lemma format_examples (cot : bool) (r : Row) :
  format (prompt_template cot) (select_columns cot r) = Ok (formatted_row cot r).
Proof.
  unfold format. rewrite parse_prompt_template.
  destruct cot; unfold select_columns, formatted_row; render_fields.
Qed.

Lemma unanswered_text (cot : bool) (c : string) :
  unanswered cot c = Ok (target_text cot c +:+ " ").
Proof.
  unfold unanswered, format. rewrite !parse_prompt_template.
  destruct cot; unfold target_text; render_fields.
Qed.

Lemma prompt_text (cot : bool) (prompt_examples : string) (r : Row) :
  prompt cot prompt_examples (select_columns cot r)
  = Ok (((prompt_examples +:+ nl) +:+ instruction cot) +:+ target_text cot (classical r)).
Proof.
  unfold prompt, instruction.
  assert (getitem (select_columns cot r) "classical" = Ok (classical r)) as ->.
  { unfold getitem, select_columns. destruct cot; by simplify_map_eq. }
  destruct cot; cbn [mbind result_bind]; rewrite unanswered_text;
    cbn [mbind result_bind]; by rewrite strip_last_snoc.
Qed.

Lemma comprehension_fmap {A B C : Type} (f : B → result C) (h : A → B)
    (g : A → C) (l : list A) :
  (∀ x, f (h x) = Ok (g x)) → comprehension f (h <$> l) = Ok (g <$> l).
Proof.
  intros Hf. induction l as [|x l IH]; [done|].
  rewrite !fmap_cons. cbn [comprehension]. rewrite Hf, IH. done.
Qed.

Lemma select_prefix {A : Type} (ds : list A) (k : Z) :
  0 ≤ k → k ≤ Z.of_nat (length ds) → select ds 0 k = Ok (take (Z.to_nat k) ds).
Proof.
  intros H0 Hk. unfold select. case_bool_decide as Hds.
  - destruct ds; [|done]. by rewrite take_nil.
  - rewrite (proj2 (Z.leb_le 0 k) H0). cbn [andb Z.leb Z.compare].
    unfold select_contiguous. rewrite bool_decide_false by done.
    unfold check_valid_indices_value.
    rewrite (proj2 (Z.leb_gt _ 0)) by lia. cbn [Z.ltb Z.compare andb orb].
    assert ((0 + (k - 0) - 1 <? 0) && (0 + (k - 0) - 1 + Z.of_nat (length ds) <? 0)
            = false) as ->.
    { apply andb_false_iff. right. apply Z.ltb_ge. lia. }
    rewrite (proj2 (Z.leb_gt _ _)) by lia. cbn.
    by rewrite Z.sub_0_r.
Qed.

Lemma select_suffix {A : Type} (ds : list A) (k : Z) :
  0 ≤ k → k < Z.of_nat (length ds) →
  select ds k (Z.of_nat (length ds)) = Ok (drop (Z.to_nat k) ds).
Proof.
  intros H0 Hk. unfold select. rewrite bool_decide_false by lia.
  rewrite (proj2 (Z.leb_le k _)) by lia. rewrite (proj2 (Z.leb_le 0 k) H0).
  cbn [andb]. unfold select_contiguous. rewrite bool_decide_false by lia.
  unfold check_valid_indices_value.
  rewrite (proj2 (Z.ltb_ge k 0)) by lia. rewrite (proj2 (Z.leb_gt _ k)) by lia.
  cbn [andb orb mbind result_bind].
  rewrite (proj2 (Z.ltb_ge _ 0)) by lia. rewrite (proj2 (Z.leb_gt _ _)) by lia.
  cbn [andb orb mbind result_bind].
  rewrite take_ge; [done|]. rewrite length_drop. lia.
Qed.

Lemma joined_join (sep : string) (rows : list string) :
  rows ≠ [] → joined sep rows (join sep rows).
Proof.
  induction rows as [|row rows IH]; [done|]. intros _.
  destruct rows as [|row' rows]; [constructor|].
  change (join sep (row :: row' :: rows)) with (row +:+ sep +:+ join sep (row' :: rows)).
  constructor. by apply IH.
Qed.

(** ** The few-shot example block *)

(** C4. For a shot count [k > 0] that the test split can serve, the example
    slice is the first [k] rows; rendering each of them through the prompt
    template of the mode gives [k] rows of text, the [i]-th being the
    [i]-th test row with its labels; and the example block is these rows
    joined by two newlines: the first row, then each later row with two
    newlines before it. *)
Theorem few_shot_block (cot : bool) (k : Z) (test : list Row) :
  0 < k → k ≤ Z.of_nat (length test) →
  ∃ (examples : list (gmap string string)) (rows : list string) (block : string),
    dataset_examples k (dataset_test cot test) = Ok examples ∧
    examples = dataset_test cot (take (Z.to_nat k) test) ∧
    comprehension (format (prompt_template cot)) examples = Ok rows ∧
    length rows = Z.to_nat k ∧
    (∀ (i : nat) (r : Row),
       (i < Z.to_nat k)%nat → test !! i = Some r →
       rows !! i = Some (formatted_row cot r)) ∧
    prompt_examples cot k examples = Ok block ∧
    joined (String "010" (String "010" "")) rows block.
Proof.
  intros Hpos Hle.
  exists (dataset_test cot (take (Z.to_nat k) test)),
         (formatted_row cot <$> take (Z.to_nat k) test),
         (join (nl +:+ nl) (formatted_row cot <$> take (Z.to_nat k) test)).
  assert (comprehension (format (prompt_template cot))
            (dataset_test cot (take (Z.to_nat k) test))
          = Ok (formatted_row cot <$> take (Z.to_nat k) test)) as Hrows.
  { unfold dataset_test.
    apply (comprehension_fmap _ _ (formatted_row cot)). intros r. apply format_examples. }
  split_and!.
  - unfold dataset_examples, dataset_test.
    rewrite select_prefix; [|lia|by rewrite length_fmap].
    by rewrite fmap_take.
  - done.
  - done.
  - by rewrite length_fmap, length_take_le by lia.
  - intros i r Hi Hr. rewrite list_lookup_fmap, lookup_take_lt by done. by rewrite Hr.
  - unfold prompt_examples. rewrite bool_decide_false by lia. by rewrite Hrows.
  - apply (joined_join (nl +:+ nl)).
    destruct test as [|r test]; [cbn in Hle; lia|].
    destruct (Z.to_nat k) eqn:Hk; [lia|done].
Qed.

Lemma few_shot_block_witness :
  ∃ (rows : list string) (block : string),
    prompt_examples false 2 (dataset_test false [sample_row; sample_row]) = Ok block ∧
    joined (String "010" (String "010" "")) rows block ∧
    rows = ["Classical: AB" +:+ nl +:+ "English: cd";
            "Classical: AB" +:+ nl +:+ "English: cd"].
Proof.
  destruct (few_shot_block false 2 [sample_row; sample_row; sample_row])
    as (examples & rows & block & _ & -> & Hrows & _ & _ & Hblock & Hjoined);
    [lia|cbn; lia|].
  exists rows, block. split_and!; [exact Hblock|exact Hjoined|].
  vm_compute in Hrows. injection Hrows as <-. reflexivity.
Defined.

(** ** The zero-shot prompt *)

(** C1, as stated, fails: with no shots the prompt of a row begins with a
    newline, and the instruction is not its prefix. *)
Lemma zero_shot_prompt_starts_with_newline :
  prompt_examples false 0 [] = Ok "" ∧
  prompt false "" (select_columns false sample_row)
    = Ok (nl +:+ direct_instruction +:+ "Classical: AB" +:+ nl +:+ "English:") ∧
  prefix_of direct_instruction
    (nl +:+ direct_instruction +:+ "Classical: AB" +:+ nl +:+ "English:") = false.
Proof. split_and!; vm_compute; reflexivity. Qed.

(** C1, amended. With shot count 0 the example slice and the example block
    are empty, and the prompt of a row holds no example row: it is one
    newline (the separator that always follows the example block), then
    directly the instruction, then the target row with its answer left
    open. *)
Theorem zero_shot_prompt (cot : bool) (test : list Row)
    (examples : list (gmap string string)) (r : Row) :
  dataset_examples 0 (dataset_test cot test) = Ok [] ∧
  prompt_examples cot 0 examples = Ok "" ∧
  prompt cot "" (select_columns cot r)
    = Ok (nl +:+ instruction cot +:+ target_text cot (classical r)) ∧
  prefix_of (nl +:+ instruction cot)
    (nl +:+ instruction cot +:+ target_text cot (classical r)) = true.
Proof.
  split_and!; [|done|..].
  - unfold dataset_examples. by rewrite select_prefix by lia.
  - rewrite prompt_text. by rewrite app_assoc_s.
  - rewrite <- app_assoc_s. apply prefix_of_app.
Qed.

(** ** Stripping the last character of the target row *)

(** C5. The target row rendered with its answer fields empty ends with the
    space that the template puts after its last label; stripping one
    character removes that space and nothing else, so the source text stays
    whole in the prompt (for every source text, empty or not). *)
Theorem strip_removes_template_space (cot : bool) (r : Row) :
  (∃ t, prompt_template cot = t +:+ " " +:+ "{english}") ∧
  unanswered cot (classical r) = Ok (target_text cot (classical r) +:+ " ") ∧
  strip_last (target_text cot (classical r) +:+ " ") = target_text cot (classical r) ∧
  (∃ rest, target_text cot (classical r) = "Classical: " +:+ classical r +:+ rest) ∧
  (∀ prompt_examples,
     prompt cot prompt_examples (select_columns cot r)
     = Ok (((prompt_examples +:+ nl) +:+ instruction cot)
           +:+ target_text cot (classical r))).
Proof.
  split_and!.
  - destruct cot.
    + by exists ("Classical: {classical}" +:+ nl +:+ "Modern: {modern}" +:+ nl +:+ "English:").
    + by exists ("Classical: {classical}" +:+ nl +:+ "English:").
  - apply unanswered_text.
  - apply strip_last_snoc.
  - destruct cot; eexists; unfold target_text; reflexivity.
  - intros pe. apply prompt_text.
Qed.

(** * The parsed command line *)

Module ArgparseFacts.
Import Argparse.

Lemma option_string_actions_member (p : list argument) (o : string) (a : argument) :
  (o, a) ∈ option_string_actions p → a ∈ p ∧ o ∈ option_strings a.
Proof.
  unfold option_string_actions. intros H.
  apply list_elem_of_bind in H as (a' & H & Ha').
  apply list_elem_of_fmap in H as (o' & [= -> ->] & Ho). done.
Qed.

Lemma find_option_member (p : list argument) (o : string) (a : argument) :
  find_option p o = Some a → a ∈ p.
Proof.
  unfold find_option.
  destruct (head _) as [[o' a']|] eqn:H; cbn; intros [= <-].
  apply head_Some_elem_of in H. apply list_elem_of_filter in H as [_ H].
  by apply option_string_actions_member in H as [? _].
Qed.

Lemma get_option_tuples_member (p : list argument) (s : string)
    (t : argument * string * option string) :
  t ∈ get_option_tuples p s → t.1.1 ∈ p.
Proof.
  unfold get_option_tuples.
  destruct (prefix_of "--" s); intros H;
    apply list_elem_of_omap in H as ([o a] & Hin & Hsome);
    apply option_string_actions_member in Hin as [Hin _]; cbn in Hsome;
    repeat case_match; by simplify_eq.
Qed.

Lemma parse_optional_member (p : list argument) (s o : string) (a : argument)
    (e : option string) :
  parse_optional p s = Optional (Some a) o e → a ∈ p.
Proof.
  unfold parse_optional. intros H.
  repeat match type of H with
  | (if ?x then _ else _) = _ => destruct x eqn:?; try discriminate
  | match ?x with _ => _ end = _ => destruct x eqn:?; try discriminate
  end.
  all: injection H as <- _ _.
  - by eapply find_option_member.
  - destruct (contains_char "=" s); [by eapply find_option_member|done].
  - apply (get_option_tuples_member p s). rewrite Heql. left.
Qed.

(** ** The pattern of the command line *)

Lemma arg_strings_pattern_parts (p : list argument) (d : bool)
    (argv : list string) (pat : list (string * part)) :
  arg_strings_pattern p d argv = Ok pat →
  Forall (λ sp, sp.1 ∈ argv ∧
                ∀ a o e, sp.2 = PatO a o e → parse_optional p sp.1 = Optional a o e)
         pat.
Proof.
  revert d pat. induction argv as [|s rest IH]; intros d pat H.
  - injection H as <-. constructor.
  - assert (∀ d' part pat',
              arg_strings_pattern p d' rest = Ok pat' →
              (∀ a o e, part = PatO a o e → parse_optional p s = Optional a o e) →
              Forall (λ sp, sp.1 ∈ s :: rest ∧
                ∀ a o e, sp.2 = PatO a o e → parse_optional p sp.1 = Optional a o e)
                ((s, part) :: pat')) as Hstep.
    { intros d' part pat' Hrest Hpart. constructor; [split; [left|done]|].
      eapply Forall_impl; [by eapply IH|]. intros sp [Hin Hsp]. split; [by right|done]. }
    cbn [arg_strings_pattern] in H.
    destruct d.
    + destruct (arg_strings_pattern p true rest) as [pat'|] eqn:Hrest; [|done].
      injection H as <-. by eapply Hstep.
    + case_bool_decide.
      * destruct (arg_strings_pattern p true rest) as [pat'|] eqn:Hrest; [|done].
        injection H as <-. by eapply Hstep.
      * destruct (parse_optional p s) as [|a o e|] eqn:Hs; [| |done];
          (destruct (arg_strings_pattern p false rest) as [pat'|] eqn:Hrest; [|done]);
          injection H as <-; (eapply Hstep; [done|]); [done|].
        by intros ??? [= <- <- <-].
Qed.

(** A pattern without [-] is the pattern of a command line without [--]. *)
Lemma arg_strings_pattern_dashes (p : list argument) (argv : list string)
    (pat : list (string * part)) :
  arg_strings_pattern p false argv = Ok pat →
  Forall (λ sp, sp.2 ≠ PatDashes) pat → "--" ∉ argv.
Proof.
  revert pat. induction argv as [|s rest IH]; intros pat H Hpat.
  - by intros ?%elem_of_nil.
  - cbn [arg_strings_pattern] in H. case_bool_decide as Hs.
    + destruct (arg_strings_pattern p true rest); [|done].
      injection H as <-. by apply Forall_cons in Hpat as [? _].
    + destruct (parse_optional p s); [| |done];
        (destruct (arg_strings_pattern p false rest) as [pat'|] eqn:Hrest; [|done]);
        injection H as <-; apply Forall_cons in Hpat as [_ Hpat];
        (intros [?|?]%elem_of_cons; [done|by eapply IH]).
Qed.

Lemma arg_strings_pattern_app (p : list argument) (argv1 argv2 : list string) :
  "--" ∉ argv1 →
  arg_strings_pattern p false (argv1 ++ argv2)
  = pat1 ← arg_strings_pattern p false argv1;
    pat2 ← arg_strings_pattern p false argv2;
    Ok (pat1 ++ pat2).
Proof.
  induction argv1 as [|s rest IH]; intros Hd.
  - cbn. by destruct (arg_strings_pattern p false argv2).
  - apply not_elem_of_cons in Hd as [Hs Hd].
    cbn [app arg_strings_pattern]. rewrite bool_decide_false by done.
    rewrite (IH Hd).
    destruct (parse_optional p s); [| |done];
      (destruct (arg_strings_pattern p false rest); [|done]); cbn;
      by destruct (arg_strings_pattern p false argv2).
Qed.

(** ** The actions of an option *)

Lemma explicit_loop_unfold (p : list argument) (a : argument)
    (o e : string) (following : list (string * part)) :
  explicit_loop p a o e following
  = match arg_count a with
    | O =>
        match e with
        | String c rest =>
            if single_dash o then
              match find_option p (String "-" (String c "")) with
              | Some a' =>
                  r ← match rest with
                      | EmptyString => match_following a' following
                      | _ => explicit_loop p a' (String "-" (String c "")) rest following
                      end;
                  Ok ((a, []) :: r.1, r.2)
              | None => Raise (SystemExit 2)
              end
            else Raise (SystemExit 2)
        | EmptyString => Raise (SystemExit 2)
        end
    | _ => Ok ([(a, [e])], false)
    end.
Proof. by destruct e. Qed.

(** An option whose actions all succeed is a stored option with one value,
    attached to it or found in the next string. *)
Lemma take_optional (p : list argument) (a : argument) (o : string)
    (e : option string) (following : list (string * part))
    (r : list (argument * list string) * bool) (ns ns' : gmap string pyval) :
  consume_optional p a o e following = Ok r →
  for_each take_action r.1 ns = Ok ns' →
  ∃ ty v x,
    act a = Store ty ∧ get_values a [v] = Ok x ∧ ns' = <[dest a := x]> ns ∧
    ((e = Some v ∧ r.2 = false) ∨
     (e = None ∧ r.2 = true ∧ ∃ rest, following = (v, PatA) :: rest)).
Proof.
  assert (∀ v,
            for_each take_action [(a, [v])] ns = Ok ns' →
            act a = Help ∨
            ∃ ty x, act a = Store ty ∧ get_values a [v] = Ok x ∧
                    ns' = <[dest a := x]> ns) as Hone.
  { intros v. cbn [for_each]. unfold take_action; cbn [fst snd].
    destruct (get_values a [v]) as [x|]; [|done]. cbn [mbind result_bind].
    destruct (act a) as [ty|]; [|by left]. cbn [mbind result_bind].
    intros [= <-]. right. by exists ty, x. }
  assert (∀ tuples, act a = Help → for_each take_action ((a, []) :: tuples) ns ≠ Ok ns')
    as Hhelp.
  { intros tuples Ha. cbn [for_each]. unfold take_action, get_values; cbn [fst snd].
    by rewrite Ha. }
  unfold consume_optional. destruct e as [e|].
  - rewrite explicit_loop_unfold. unfold arg_count.
    destruct (act a) as [ty|] eqn:Ha.
    + intros [= <-] Hrun. apply Hone in Hrun as [?|(ty' & x & ? & ? & ?)];
        [done|]. exists ty, e, x. split_and!; [done..|by left].
    + intros Hr Hrun. exfalso.
      destruct e as [|c rest]; [done|].
      destruct (single_dash o); [|done].
      destruct (find_option p _) as [a'|]; [|done].
      destruct (match rest with EmptyString => _ | _ => _ end) as [r'|]; [|done].
      injection Hr as <-. by eapply Hhelp.
  - unfold match_following, arg_count. destruct (act a) as [ty|] eqn:Ha.
    + destruct following as [|[v []] rest]; try done.
      intros [= <-] Hrun. apply Hone in Hrun as [?|(ty' & x & ? & ? & ?)];
        [done|]. exists ty, v, x. split_and!; [done..|right; by eauto].
    + intros [= <-] Hrun. exfalso. by eapply Hhelp.
Qed.

Lemma get_values_one (a : argument) (ty : argtype) (v : string) (x : pyval) :
  act a = Store ty → get_values a [v] = Ok x →
  (v = "--" ∧ x = PyList []) ∨ (v ≠ "--" ∧ get_value ty v = Ok x).
Proof.
  intros Ha. unfold get_values. rewrite Ha. cbn [remove_first].
  case_bool_decide.
  - cbn. intros [= <-]. by left.
  - intros Hx. by right.
Qed.

(** ** The loop over the command line *)

(** A parse that succeeds is a sequence of attribute assignments, each for
    an option that a string of the command line names. *)
Lemma consume_assigns (p : list argument) (strings : list (string * part))
    (taken : bool) (ns : gmap string pyval) (extras : list string)
    (r : gmap string pyval * list string) :
  consume p strings taken ns extras = Ok r →
  ∃ l : list (argument * pyval),
    r.1 = foldl assign ns l ∧
    Forall (λ ax, ∃ s o e ty v,
              (s, PatO (Some ax.1) o e) ∈ strings ∧
              act ax.1 = Store ty ∧ get_values ax.1 [v] = Ok ax.2) l.
Proof.
  revert taken ns extras.
  induction strings as [|[s part] rest IH]; intros taken ns extras H.
  - injection H as <-. by exists [].
  - assert (∀ taken' ns0 extras0,
              consume p rest taken' ns0 extras0 = Ok r →
              ∃ l : list (argument * pyval),
                r.1 = foldl assign ns0 l ∧
                Forall (λ ax, ∃ s' o e ty v,
                          (s', PatO (Some ax.1) o e) ∈ (s, part) :: rest ∧
                          act ax.1 = Store ty ∧ get_values ax.1 [v] = Ok ax.2) l)
      as Hrest.
    { intros taken' ns0 extras0 (l & Hl & Hall)%IH. exists l. split; [done|].
      eapply Forall_impl; [exact Hall|].
      intros ax (s' & o & e & ty & v & Hin & ?). exists s', o, e, ty, v.
      split; [by right|done]. }
    cbn [consume] in H. destruct taken; [by eapply Hrest|].
    destruct part as [|[a|] o e|]; try by eapply Hrest.
    destruct (consume_optional p a o e rest) as [t|] eqn:Ht; [|done].
    cbn [mbind result_bind] in H.
    destruct (for_each take_action t.1 ns) as [ns1|] eqn:Hrun; [|done].
    cbn [mbind result_bind] in H.
    destruct (take_optional _ _ _ _ _ _ _ _ Ht Hrun) as (ty & v & x & Ha & Hx & -> & _).
    apply Hrest in H as (l & Hl & Hall).
    exists ((a, x) :: l). split; [done|]. constructor; [|done].
    exists s, o, e, ty, v. split; [left|done].
Qed.

(** A parse that leaves no extras started with none and met no [--]. *)
Lemma consume_no_extras (p : list argument) (strings : list (string * part))
    (taken : bool) (ns : gmap string pyval) (extras : list string)
    (ns' : gmap string pyval) :
  consume p strings taken ns extras = Ok (ns', []) →
  extras = [] ∧
  Forall (λ sp, sp.2 ≠ PatDashes) (if taken then tail strings else strings).
Proof.
  revert taken ns extras.
  induction strings as [|[s part] rest IH]; intros taken ns extras H.
  - injection H as <- <-. by destruct taken.
  - cbn [consume] in H. destruct taken.
    + apply (IH false) in H as [-> Hall]. done.
    + assert (∀ ns0, consume p rest false ns0 (extras ++ [s]) = Ok (ns', []) → False)
        as Hextra.
      { intros ns0 [Hnil _]%IH. by destruct extras. }
      destruct part as [|[a|] o e|]; try (exfalso; by eapply Hextra).
      destruct (consume_optional p a o e rest) as [t|] eqn:Ht; [|done].
      cbn [mbind result_bind] in H.
      destruct (for_each take_action t.1 ns) as [ns1|] eqn:Hrun; [|done].
      cbn [mbind result_bind] in H.
      destruct (take_optional _ _ _ _ _ _ _ _ Ht Hrun)
        as (ty & v & x & _ & _ & _ & [[_ Ht2]|(_ & Ht2 & rest' & ->)]); rewrite Ht2 in H;
        apply IH in H as [-> Hall]; (split; [done|]); constructor; try done.
      cbn [tail] in Hall. by constructor.
Qed.

Lemma match_following_app (a : argument) (following more : list (string * part))
    (r : list (argument * list string) * bool) :
  match_following a following = Ok r →
  match_following a (following ++ more) = Ok r ∧ (r.2 = true → following ≠ []).
Proof.
  unfold match_following. destruct (arg_count a).
  - intros [= <-]. done.
  - by destruct following as [|[s []] rest].
Qed.

Lemma explicit_loop_app (p : list argument) (a : argument) (o e : string)
    (following more : list (string * part))
    (r : list (argument * list string) * bool) :
  explicit_loop p a o e following = Ok r →
  explicit_loop p a o e (following ++ more) = Ok r ∧ (r.2 = true → following ≠ []).
Proof.
  revert a o r. induction e as [|c rest IH]; intros a o r.
  - rewrite !explicit_loop_unfold. destruct (arg_count a); [done|]. by intros [= <-].
  - rewrite !explicit_loop_unfold. destruct (arg_count a); [|by intros [= <-]].
    destruct (single_dash o); [|done].
    destruct (find_option p _) as [a'|]; [|done].
    assert (∀ r', match rest with
                  | EmptyString => match_following a' following
                  | _ => explicit_loop p a' (String "-" (String c "")) rest following
                  end = Ok r' →
                  match rest with
                  | EmptyString => match_following a' (following ++ more)
                  | _ => explicit_loop p a' (String "-" (String c "")) rest
                           (following ++ more)
                  end = Ok r' ∧ (r'.2 = true → following ≠ [])) as Hnext.
    { intros r'. destruct rest; [apply match_following_app|apply IH]. }
    destruct (match rest with EmptyString => _ | _ => _ end) as [r'|]; [|done].
    destruct (Hnext r' eq_refl) as [-> Hr']. cbn [mbind result_bind].
    by intros [= <-].
Qed.

Lemma consume_optional_app (p : list argument) (a : argument) (o : string)
    (e : option string) (following more : list (string * part))
    (r : list (argument * list string) * bool) :
  consume_optional p a o e following = Ok r →
  consume_optional p a o e (following ++ more) = Ok r ∧
  (r.2 = true → following ≠ []).
Proof.
  unfold consume_optional.
  destruct e; [apply explicit_loop_app|apply match_following_app].
Qed.

(** The loop over a command line followed by more strings goes on, after
    the command line, with the strings that follow. *)
Lemma consume_app (p : list argument) (t1 t2 : list (string * part))
    (taken : bool) (ns : gmap string pyval) (extras : list string)
    (r : gmap string pyval * list string) :
  consume p t1 taken ns extras = Ok r →
  (taken = true → t1 ≠ []) →
  consume p (t1 ++ t2) taken ns extras = consume p t2 false r.1 r.2.
Proof.
  revert taken ns extras.
  induction t1 as [|[s part] rest IH]; intros taken ns extras H Htaken.
  - destruct taken; [by destruct Htaken|]. by injection H as <-.
  - cbn [app consume] in *. destruct taken; [by apply IH|].
    destruct part as [|[a|] o e|]; try by apply IH.
    destruct (consume_optional p a o e rest) as [t|] eqn:Ht; [|done].
    apply (consume_optional_app _ _ _ _ _ t2) in Ht as [-> Hne].
    cbn [mbind result_bind] in *.
    destruct (for_each take_action t.1 ns) as [ns1|]; [|done].
    cbn [mbind result_bind] in *. by apply IH.
Qed.

(** ** Accepted command lines *)

Lemma parse_args_assigns (p : list argument) (argv : list string)
    (args : gmap string pyval) :
  parse_args p argv = Ok args →
  ∃ l : list (argument * pyval),
    args = foldl assign (defaults p) l ∧
    Forall (λ ax, ∃ tok o e ty v,
              tok ∈ argv ∧ parse_optional p tok = Optional (Some ax.1) o e ∧
              act ax.1 = Store ty ∧ get_values ax.1 [v] = Ok ax.2) l.
Proof.
  unfold parse_args, parse_known_args.
  destruct (arg_strings_pattern p false argv) as [pat|] eqn:Hpat; [|done].
  cbn [mbind result_bind].
  destruct (consume p pat false (defaults p) []) as [r|] eqn:Hr; [|done].
  cbn [mbind result_bind]. destruct r.2; [|done]. intros [= <-].
  apply consume_assigns in Hr as (l & Hl & Hall). exists l. split; [done|].
  apply arg_strings_pattern_parts in Hpat. rewrite Forall_forall in Hpat.
  eapply Forall_impl; [exact Hall|].
  intros ax (s & o & e & ty & v & Hin & Ha & Hx).
  destruct (Hpat _ Hin) as [Hs Hopt]. exists s, o, e, ty, v.
  split_and!; [done|by apply Hopt|done..].
Qed.

Lemma parse_args_app (p : list argument) (argv more : list string)
    (args : gmap string pyval) :
  parse_args p argv = Ok args →
  parse_args p (argv ++ more)
  = pat ← arg_strings_pattern p false more;
    r ← consume p pat false args [];
    match r.2 with
    | [] => Ok r.1
    | _ :: _ => Raise (SystemExit 2)
    end.
Proof.
  unfold parse_args, parse_known_args.
  destruct (arg_strings_pattern p false argv) as [pat|] eqn:Hpat; [|done].
  cbn [mbind result_bind].
  destruct (consume p pat false (defaults p) []) as [[ns ex]|] eqn:Hr; [|done].
  cbn [mbind result_bind fst snd]. destruct ex; [|done]. intros [= <-].
  pose proof (consume_no_extras _ _ _ _ _ _ Hr) as [_ Hd]. cbn in Hd.
  rewrite (arg_strings_pattern_app p argv more)
    by (by eapply arg_strings_pattern_dashes).
  rewrite Hpat. cbn [mbind result_bind].
  destruct (arg_strings_pattern p false more) as [pat2|]; [|done].
  cbn [mbind result_bind].
  by rewrite (consume_app _ _ pat2 _ _ _ _ Hr).
Qed.

(** An option given last, with its value in the next string, sets its
    attribute to the converted value. *)
Lemma parse_args_last_option (p : list argument) (argv : list string)
    (args : gmap string pyval) (o o' v : string) (a : argument) (ty : argtype)
    (x : pyval) :
  parse_args p argv = Ok args →
  o ≠ "--" → parse_optional p o = Optional (Some a) o' None → act a = Store ty →
  v ≠ "--" → parse_optional p v = Positional → get_value ty v = Ok x →
  parse_args p (argv ++ [o; v]) = Ok (<[dest a := x]> args).
Proof.
  intros Hparse Hod Ho Hact Hvd Hv Hx. rewrite (parse_args_app _ _ _ _ Hparse).
  cbn [arg_strings_pattern]. rewrite !bool_decide_false by done.
  rewrite Ho, Hv. cbn [mbind result_bind consume consume_optional].
  unfold match_following, arg_count. rewrite Hact. cbn [mbind result_bind fst snd for_each].
  unfold take_action, get_values. cbn [fst snd remove_first].
  rewrite bool_decide_false by done. rewrite Hact, Hx. done.
Qed.

(** ** Command lines that are not accepted *)

Lemma match_following_raise (a : argument) (following : list (string * part))
    (e : exn) :
  match_following a following = Raise e → e = SystemExit 2.
Proof.
  unfold match_following. destruct (arg_count a); [done|].
  destruct following as [|[s []] rest]; by intros [= <-].
Qed.

Lemma explicit_loop_raise (p : list argument) (a : argument) (o x : string)
    (following : list (string * part)) (e : exn) :
  explicit_loop p a o x following = Raise e → e = SystemExit 2.
Proof.
  revert a o. induction x as [|c rest IH]; intros a o.
  - rewrite explicit_loop_unfold. destruct (arg_count a); by intros [= <-].
  - rewrite explicit_loop_unfold. destruct (arg_count a); [|done].
    destruct (single_dash o); [|by intros [= <-]].
    destruct (find_option p _) as [a'|]; [|by intros [= <-]].
    destruct (match rest with EmptyString => _ | _ => _ end) as [r'|e'] eqn:Hnext;
      [done|].
    cbn [mbind result_bind]. intros [= <-].
    destruct rest; [by eapply match_following_raise|by eapply IH].
Qed.

Lemma consume_optional_raise (p : list argument) (a : argument) (o : string)
    (x : option string) (following : list (string * part)) (e : exn) :
  consume_optional p a o x following = Raise e → e = SystemExit 2.
Proof.
  unfold consume_optional.
  destruct x; [apply explicit_loop_raise|apply match_following_raise].
Qed.

(** The actions of an option that stores a value are one assignment. *)
Lemma consume_optional_store (p : list argument) (a : argument) (o : string)
    (x : option string) (following : list (string * part))
    (r : list (argument * list string) * bool) (ty : argtype) :
  consume_optional p a o x following = Ok r → act a = Store ty →
  ∃ v, r.1 = [(a, [v])].
Proof.
  unfold consume_optional. intros Hr Ha. destruct x as [x|].
  - rewrite explicit_loop_unfold in Hr. unfold arg_count in Hr. rewrite Ha in Hr.
    injection Hr as <-. by eexists.
  - unfold match_following, arg_count in Hr. rewrite Ha in Hr.
    destruct following as [|[v []] rest]; try done. injection Hr as <-. by eexists.
Qed.

Lemma get_value_raise (ty : argtype) (s : string) (e : exn) :
  get_value ty s = Raise e → e = SystemExit 2.
Proof.
  destruct ty; cbn; [done| |done].
  destruct (parse_int s); [done|]. by intros [= <-].
Qed.

Lemma comprehension_raise {A B : Type} (f : A → result B) (l : list A) (e : exn) :
  comprehension f l = Raise e → ∃ x, x ∈ l ∧ f x = Raise e.
Proof.
  induction l as [|x l IH]; [done|]. cbn [comprehension].
  destruct (f x) as [y|e'] eqn:Hx.
  - cbn [mbind result_bind]. destruct (comprehension f l) as [ys|e'']; [done|].
    cbn [mbind result_bind]. intros [= <-].
    destruct IH as (x' & Hin & Hx'); [done|]. exists x'. split; [by right|done].
  - cbn [mbind result_bind]. intros [= <-]. exists x. split; [left|done].
Qed.

Lemma take_action_raise (ns : gmap string pyval) (t : argument * list string)
    (e : exn) :
  take_action ns t = Raise e →
  e = SystemExit 2 ∨ (e = SystemExit 0 ∧ act t.1 = Help).
Proof.
  unfold take_action, get_values.
  destruct (act t.1) as [ty|] eqn:Ha; [|intros [= <-]; by right].
  intros He. left.
  assert (∀ l, (vs ← comprehension (get_value ty) l; Ok (PyList vs)) ≫=
                 (λ values, Ok (<[dest t.1:=values]> ns)) = Raise e →
               e = SystemExit 2) as Hlist.
  { intros l Hl. destruct (comprehension (get_value ty) l) as [vs|e'] eqn:Hc; [done|].
    cbn [mbind result_bind] in Hl. injection Hl as <-.
    apply comprehension_raise in Hc as (s & _ & Hs). by eapply get_value_raise. }
  destruct (remove_first "--" t.2) as [|s [|s' l]]; [by eapply Hlist| |by eapply Hlist].
  destruct (get_value ty s) as [v|e'] eqn:Hs; [done|].
  cbn [mbind result_bind] in He. injection He as <-. by eapply get_value_raise.
Qed.

Lemma take_actions_raise (l : list (argument * list string))
    (ns : gmap string pyval) (e : exn) :
  for_each take_action l ns = Raise e →
  e = SystemExit 2 ∨ (e = SystemExit 0 ∧ ∃ t, t ∈ l ∧ act t.1 = Help).
Proof.
  revert ns. induction l as [|t l IH]; intros ns; [done|]. cbn [for_each].
  destruct (take_action ns t) as [ns'|e'] eqn:Ht.
  - cbn [mbind result_bind]. intros [?|[? (t' & Hin & Ha)]]%IH; [by left|].
    right. split; [done|]. exists t'. split; [by right|done].
  - cbn [mbind result_bind]. intros [= <-].
    apply take_action_raise in Ht as [?|[? Ha]]; [by left|].
    right. split; [done|]. exists t. split; [left|done].
Qed.

(** The loop ends with status 2, or with status 0 at a string that names an
    option whose action is help. *)
Lemma consume_raise (p : list argument) (strings : list (string * part))
    (taken : bool) (ns : gmap string pyval) (extras : list string) (e : exn) :
  consume p strings taken ns extras = Raise e →
  e = SystemExit 2 ∨
  (e = SystemExit 0 ∧
   ∃ s a o x, (s, PatO (Some a) o x) ∈ strings ∧ act a = Help).
Proof.
  revert taken ns extras.
  induction strings as [|[s part] rest IH]; intros taken ns extras H; [done|].
  assert (∀ taken' ns0 extras0,
            consume p rest taken' ns0 extras0 = Raise e →
            e = SystemExit 2 ∨
            (e = SystemExit 0 ∧
             ∃ s' a o x, (s', PatO (Some a) o x) ∈ (s, part) :: rest ∧ act a = Help))
    as Hrest.
  { intros taken' ns0 extras0 [?|[? (s' & a & o & x & Hin & Ha)]]%IH; [by left|].
    right. split; [done|]. exists s', a, o, x. split; [by right|done]. }
  cbn [consume] in H. destruct taken; [by eapply Hrest|].
  destruct part as [|[a|] o x|]; try by eapply Hrest.
  destruct (consume_optional p a o x rest) as [t|e'] eqn:Ht.
  - cbn [mbind result_bind] in H.
    destruct (for_each take_action t.1 ns) as [ns1|e'] eqn:Hrun;
      [by eapply Hrest|].
    cbn [mbind result_bind] in H. injection H as <-.
    apply take_actions_raise in Hrun as [?|[? (t' & Hin & Ha)]]; [by left|].
    right. split; [done|]. exists s, a, o, x. split; [left|].
    destruct (act a) as [ty|] eqn:Hact; [|done].
    destruct (consume_optional_store _ _ _ _ _ _ ty Ht Hact) as [v Hv].
    rewrite Hv in Hin. apply list_elem_of_singleton in Hin as ->. cbn in Ha. congruence.
  - cbn [mbind result_bind] in H. injection H as <-. left.
    by eapply consume_optional_raise.
Qed.

Lemma arg_strings_pattern_raise (p : list argument) (d : bool)
    (argv : list string) (e : exn) :
  arg_strings_pattern p d argv = Raise e → e = SystemExit 2.
Proof.
  revert d. induction argv as [|s rest IH]; intros d; [done|].
  cbn [arg_strings_pattern].
  assert (∀ d' part,
            (parts ← arg_strings_pattern p d' rest; Ok ((s, part) :: parts)) = Raise e →
            e = SystemExit 2) as Hrest.
  { intros d' part. destruct (arg_strings_pattern p d' rest) eqn:Hr; [done|].
    cbn [mbind result_bind]. intros [= <-]. by eapply IH. }
  destruct d; [apply Hrest|]. case_bool_decide; [apply Hrest|].
  destruct (parse_optional p s); [apply Hrest|apply Hrest|by intros [= <-]].
Qed.

(** An ambiguous abbreviation before any [--] is an error of the first
    loop, whatever stands before and after it. *)
Lemma arg_strings_pattern_ambiguous (p : list argument)
    (before after : list string) (tok : string) :
  "--" ∉ before → tok ≠ "--" → parse_optional p tok = Ambiguous →
  arg_strings_pattern p false (before ++ tok :: after) = Raise (SystemExit 2).
Proof.
  intros Hd Htok Ha. induction before as [|s rest IH].
  - cbn [app arg_strings_pattern]. rewrite bool_decide_false by done. by rewrite Ha.
  - apply not_elem_of_cons in Hd as [Hs Hd].
    cbn [app arg_strings_pattern]. rewrite bool_decide_false by done.
    rewrite (IH Hd). by destruct (parse_optional p s).
Qed.

Lemma arg_strings_pattern_total (p : list argument) (d : bool) (argv : list string) :
  Forall (λ tok, tok = "--" ∨ parse_optional p tok ≠ Ambiguous) argv →
  ∃ pat, arg_strings_pattern p d argv = Ok pat.
Proof.
  revert d. induction argv as [|s rest IH]; intros d Hall; [by eexists|].
  apply Forall_cons in Hall as [Hs Hall]. cbn [arg_strings_pattern].
  assert (∀ d' part, ∃ pat,
            (parts ← arg_strings_pattern p d' rest; Ok ((s, part) :: parts)) = Ok pat)
    as Hrest.
  { intros d' part. destruct (IH d' Hall) as [pat ->]. by eexists. }
  destruct d; [apply Hrest|]. case_bool_decide as Hdash; [apply Hrest|].
  destruct Hs as [?|Hs]; [done|].
  destruct (parse_optional p s); [apply Hrest|apply Hrest|done].
Qed.

Lemma parse_args_raise (p : list argument) (argv : list string) (e : exn) :
  parse_args p argv = Raise e →
  e = SystemExit 2 ∨
  (e = SystemExit 0 ∧
   ∃ tok a o x, tok ∈ argv ∧ parse_optional p tok = Optional (Some a) o x ∧
                a ∈ p ∧ act a = Help).
Proof.
  unfold parse_args, parse_known_args.
  destruct (arg_strings_pattern p false argv) as [pat|e'] eqn:Hpat.
  - cbn [mbind result_bind].
    destruct (consume p pat false (defaults p) []) as [r|e'] eqn:Hr.
    + cbn [mbind result_bind]. destruct r.2; [done|]. intros [= <-]. by left.
    + cbn [mbind result_bind]. intros [= <-].
      apply consume_raise in Hr as [?|[? (s & a & o & x & Hin & Ha)]]; [by left|].
      right. split; [done|].
      apply arg_strings_pattern_parts in Hpat. rewrite Forall_forall in Hpat.
      destruct (Hpat _ Hin) as [Hs Hopt]. specialize (Hopt _ _ _ eq_refl).
      exists s, a, o, x. split_and!; [done..| |done].
      by eapply parse_optional_member.
  - cbn [mbind result_bind]. intros [= <-]. left.
    by eapply arg_strings_pattern_raise.
Qed.

Lemma parse_known_args_app (p : list argument) (argv more : list string)
    (r : gmap string pyval * list string) :
  parse_known_args p argv = Ok r → "--" ∉ argv →
  parse_known_args p (argv ++ more)
  = pat ← arg_strings_pattern p false more; consume p pat false r.1 r.2.
Proof.
  unfold parse_known_args. intros Hr Hd.
  destruct (arg_strings_pattern p false argv) as [pat|] eqn:Hpat; [|done].
  cbn [mbind result_bind] in Hr.
  rewrite (arg_strings_pattern_app p argv more Hd), Hpat. cbn [mbind result_bind].
  destruct (arg_strings_pattern p false more) as [pat2|]; [|done].
  cbn [mbind result_bind]. by apply consume_app.
Qed.

(** The help option, reached after strings that the loop could process,
    ends the parse with status 0, whatever follows that the first loop can
    read. *)
Lemma parse_args_help (p : list argument) (argv rest : list string)
    (r : gmap string pyval * list string) (o o' : string) (a : argument) :
  parse_known_args p argv = Ok r → "--" ∉ argv →
  o ≠ "--" → parse_optional p o = Optional (Some a) o' None → act a = Help →
  Forall (λ tok, tok = "--" ∨ parse_optional p tok ≠ Ambiguous) rest →
  parse_args p (argv ++ o :: rest) = Raise (SystemExit 0).
Proof.
  intros Hr Hd Ho Hopt Ha Hrest. unfold parse_args.
  rewrite (parse_known_args_app _ _ _ _ Hr Hd).
  cbn [arg_strings_pattern]. rewrite bool_decide_false by done. rewrite Hopt.
  destruct (arg_strings_pattern_total p false rest Hrest) as [pat ->].
  cbn [mbind result_bind consume consume_optional].
  unfold match_following, arg_count. rewrite Ha.
  cbn [mbind result_bind fst snd for_each]. unfold take_action, get_values.
  cbn [fst snd]. by rewrite Ha.
Qed.


End ArgparseFacts.

(** ** The parser of the evaluation script *)

Lemma foldl_assign_inv (P : gmap string pyval → Prop)
    (l : list (Argparse.argument * pyval)) (ns : gmap string pyval) :
  P ns → (∀ ns ax, ax ∈ l → P ns → P (assign ns ax)) → P (foldl assign ns l).
Proof.
  revert ns. induction l as [|ax l IH]; intros ns Hns Hstep; [done|].
  cbn [foldl]. apply IH.
  - apply Hstep; [left|done].
  - intros ns0 ax0 Hin. apply Hstep. by right.
Qed.

Lemma get_value_has_type (ty : Argparse.argtype) (v : string) (x : pyval) :
  Argparse.get_value ty v = Ok x → has_type ty x.
Proof.
  destruct ty; cbn.
  - by intros [= <-].
  - destruct (parse_int v); by intros [= <-].
  - by intros [= <-].
Qed.

(** The arguments parsed from an accepted command line are the defaults
    followed by assignments: each one sets the attribute of a declared
    option, which a string of the command line names, to the empty list or
    to a value of the type of the option. *)
Lemma parse_args_stores (argv : list string) (args : gmap string pyval) :
  parse_args argv = Ok args →
  ∃ l : list (Argparse.argument * pyval),
    args = foldl assign (Argparse.defaults parser) l ∧
    Forall (λ ax, ∃ tok o e ty,
              ax.1 ∈ parser ∧ tok ∈ argv ∧
              Argparse.parse_optional parser tok = Argparse.Optional (Some ax.1) o e ∧
              Argparse.act ax.1 = Argparse.Store ty ∧
              (ax.2 = PyList [] ∨ has_type ty ax.2)) l.
Proof.
  intros (l & -> & Hl)%ArgparseFacts.parse_args_assigns. exists l. split; [done|].
  eapply Forall_impl; [exact Hl|].
  intros ax (tok & o & e & ty & v & Hin & Hopt & Ha & Hx).
  exists tok, o, e, ty. split_and!; [|done..|].
  - by eapply ArgparseFacts.parse_optional_member.
  - destruct (ArgparseFacts.get_values_one _ _ _ _ Ha Hx) as [[_ ->]|[_ Hv]];
      [by left|right; by eapply get_value_has_type].
Qed.

Lemma parser_no_cot :
  Forall (λ a, ("--cot" ∉ Argparse.option_strings a) ∧ Argparse.dest a ≠ "cot") parser.
Proof. apply (bool_decide_unpack _). by vm_compute. Qed.

Lemma parser_dest_type (a a' : Argparse.argument) (ty ty' : Argparse.argtype) :
  a ∈ parser → a' ∈ parser →
  Argparse.act a = Argparse.Store ty → Argparse.act a' = Argparse.Store ty' →
  Argparse.dest a = Argparse.dest a' → ty = ty'.
Proof.
  assert (Forall (λ a, Forall (λ a', Argparse.dest a = Argparse.dest a' →
                                      Argparse.act a = Argparse.act a') parser)
            parser) as Hall by (repeat constructor; vm_compute; congruence).
  intros Ha Ha' Hact Hact' Hd. rewrite Forall_forall in Hall.
  pose proof (Hall _ Ha) as Hall'. rewrite Forall_forall in Hall'.
  specialize (Hall' _ Ha' Hd). congruence.
Qed.

Lemma parser_stored_flags :
  flags = omap (λ a, match Argparse.act a with
                     | Argparse.Store _ => Some (Argparse.dest a)
                     | Argparse.Help => None
                     end) parser.
Proof. by vm_compute. Qed.

Lemma parse_args_no_cot (argv : list string) (args : gmap string pyval) :
  parse_args argv = Ok args → args !! "cot" = None.
Proof.
  intros (l & -> & Hl)%parse_args_stores.
  apply foldl_assign_inv; [by vm_compute|].
  intros ns [a x] Hin Hns. unfold assign; cbn.
  rewrite Forall_forall in Hl. destruct (Hl _ Hin) as (tok & o & e & ty & Hc & _).
  cbn in Hc. pose proof parser_no_cot as Hp. rewrite Forall_forall in Hp.
  destruct (Hp _ Hc) as [_ Hd]. by rewrite lookup_insert_ne.
Qed.

Lemma parse_args_absent (flag : string) (argv : list string)
    (args : gmap string pyval) :
  parse_args argv = Ok args → mentions flag argv = false →
  args !! flag = Argparse.defaults parser !! flag.
Proof.
  intros (l & -> & Hl)%parse_args_stores Hm.
  apply (foldl_assign_inv (λ ns, ns !! flag = Argparse.defaults parser !! flag));
    [done|].
  intros ns [a x] Hin Hns. unfold assign; cbn.
  rewrite Forall_forall in Hl.
  destruct (Hl _ Hin) as (tok & o & e & ty & _ & Htok & Hc & _).
  cbn in Hc. rewrite lookup_insert_ne; [done|].
  intros Hd. unfold mentions in Hm.
  assert (existsb (λ tok, match Argparse.parse_optional parser tok with
                          | Argparse.Optional (Some a) _ _ =>
                              bool_decide (Argparse.dest a = flag)
                          | _ => false
                          end) argv = true) as Htrue; [|congruence].
  apply existsb_exists. exists tok. split; [by apply list_elem_of_In|].
  rewrite Hc. by apply bool_decide_eq_true.
Qed.

Lemma parse_args_typed (argv : list string) (args : gmap string pyval) :
  parse_args argv = Ok args →
  ∀ a ty, a ∈ parser → Argparse.act a = Argparse.Store ty →
    ∃ v, args !! Argparse.dest a = Some v ∧
         (v = PyNone ∨ v = PyList [] ∨ has_type ty v).
Proof.
  intros (l & -> & Hl)%parse_args_stores.
  apply (foldl_assign_inv (λ ns, ∀ a ty, a ∈ parser →
    Argparse.act a = Argparse.Store ty →
    ∃ v, ns !! Argparse.dest a = Some v ∧
         (v = PyNone ∨ v = PyList [] ∨ has_type ty v))).
  - assert (Forall (λ a, ∀ ty, Argparse.act a = Argparse.Store ty →
              Argparse.defaults parser !! Argparse.dest a = Some PyNone) parser)
      as Hall by (repeat constructor; intros ty; by vm_compute).
    intros a ty Ha Hact. rewrite Forall_forall in Hall.
    exists PyNone. split; [by eapply Hall|by left].
  - intros ns [a0 x] Hin Hns a ty Ha Hact. unfold assign; cbn.
    rewrite Forall_forall in Hl.
    destruct (Hl _ Hin) as (tok & o & e & ty0 & Ha0 & _ & _ & Hact0 & Hx). cbn in *.
    destruct (decide (Argparse.dest a0 = Argparse.dest a)) as [Heq|Hne].
    + rewrite Heq, lookup_insert_eq. exists x. split; [done|]. right.
      rewrite <- (parser_dest_type a0 a ty0 ty) by done. done.
    + rewrite lookup_insert_ne by done. by apply Hns.
Qed.

Lemma parse_args_declared (argv : list string) (args : gmap string pyval)
    (flag : string) :
  parse_args argv = Ok args → flag ∈ flags → is_Some (args !! flag).
Proof.
  intros Hparse Hflag.
  rewrite parser_stored_flags in Hflag.
  apply list_elem_of_omap in Hflag as (a & Ha & Hm).
  destruct (Argparse.act a) as [ty|] eqn:Hact; [|done]. injection Hm as <-.
  destruct (parse_args_typed _ _ Hparse a ty Ha Hact) as (v & -> & _). by eexists.
Qed.

(** A flag given last, with its value in the next string, sets its
    attribute to the converted value. *)
Lemma parse_args_last_flag (argv : list string) (args : gmap string pyval)
    (o o' v : string) (a : Argparse.argument) (ty : Argparse.argtype) (x : pyval) :
  parse_args argv = Ok args →
  Argparse.parse_optional parser o = Argparse.Optional (Some a) o' None →
  Argparse.act a = Argparse.Store ty →
  Argparse.parse_optional parser v = Argparse.Positional →
  Argparse.get_value ty v = Ok x →
  parse_args (argv ++ [o; v]) = Ok (<[Argparse.dest a := x]> args).
Proof.
  intros Hparse Ho Hact Hv Hx.
  apply (ArgparseFacts.parse_args_last_option parser argv args o o' v a ty x);
    try done.
  - intros ->. by vm_compute in Ho.
  - intros ->. by vm_compute in Hv.
Qed.
(** ** Lines 35-41: flags and configuration fields *)

Lemma if_else_getattr (args : gmap string pyval) (flag : string)
    (fallback : result pyval) (v : pyval) :
  args !! flag = Some v →
  if_else (getattr args flag) (getattr args flag) fallback
  = if truthy v then Ok v else fallback.
Proof. intros H. unfold if_else, getattr. rewrite H. done. Qed.

Lemma if_else_overrides (args : gmap string pyval) (flag : string)
    (fallback : result pyval) :
  overrides args flag (if_else (getattr args flag) (getattr args flag) fallback)
    fallback.
Proof.
  split.
  - intros v Hv Ht. by rewrite (if_else_getattr _ _ _ v), Ht.
  - intros Hv. by rewrite (if_else_getattr _ _ _ PyNone).
Qed.

Lemma getitem_raise {V : Type} (d : gmap string V) (key : string) (e : exn) :
  getitem d key = Raise e → e = KeyError key.
Proof. unfold getitem. destruct (d !! key); by intros [= <-]. Qed.

(** C2. The parser declares no [cot] option, so whatever command line it
    accepts, the parsed arguments have no [cot] attribute: reading
    [args.cot] at line 41 raises [AttributeError], and lines 26-41 never
    complete (they stop there, or earlier on a missing configuration key). *)
Theorem cot_read_fails (argv : list string) (args : gmap string pyval) :
  parse_args argv = Ok args →
  Forall (λ a, ("--cot" ∉ Argparse.option_strings a) ∧ Argparse.dest a ≠ "cot") parser ∧
  args !! "cot" = None ∧
  getattr args "cot" = Raise (AttributeError "cot") ∧
  (∀ eval_cfg, cot args eval_cfg = Raise (AttributeError "cot")) ∧
  (∀ config, setup argv config = Raise (AttributeError "cot") ∨
             ∃ key, setup argv config = Raise (KeyError key)).
Proof.
  intros Hparse. pose proof (parse_args_no_cot _ _ Hparse) as Hcot.
  assert (getattr args "cot" = Raise (AttributeError "cot")) as Hget
    by (unfold getattr; by rewrite Hcot).
  assert (∀ eval_cfg, cot args eval_cfg = Raise (AttributeError "cot")) as Hline
    by (intros; unfold cot, if_else; by rewrite Hget).
  split_and!; [apply parser_no_cot|done..|].
  intros config. unfold setup. rewrite Hparse. cbn [mbind result_bind].
  assert (∀ flag (cfg : gmap string pyval) (k : settings → result settings)
            (f : pyval → result settings),
            flag ∈ flags →
            (∀ v, f v = Raise (AttributeError "cot") ∨ ∃ key, f v = Raise (KeyError key)) →
            let r := if_else (getattr args flag) (getattr args flag) (getitem cfg flag) ≫= f in
            r = Raise (AttributeError "cot") ∨ ∃ key, r = Raise (KeyError key)) as Hstage.
  { intros flag cfg _ f Hflag Hf.
    destruct (parse_args_declared _ _ flag Hparse Hflag) as [v Hv].
    cbn zeta. rewrite (if_else_getattr _ _ _ v Hv).
    destruct (truthy v); [apply Hf|].
    unfold getitem. destruct (cfg !! flag); [apply Hf|]. right. by eexists. }
  destruct (getitem config "model_config") as [model_cfg|e] eqn:H1;
    [|apply getitem_raise in H1 as ->; right; by eexists].
  destruct (getitem config "eval_config") as [eval_cfg|e] eqn:H2;
    [|apply getitem_raise in H2 as ->; right; by eexists].
  destruct (getitem config "access_token") as [access_token|e] eqn:H3;
    [|apply getitem_raise in H3 as ->; right; by eexists].
  unfold model_path, new_model_path, dataset_path, dataset_config, num_shots.
  pose (k0 := λ s : settings, Ok s).
  repeat (apply (Hstage _ _ k0); [unfold flags; rewrite !elem_of_cons; by eauto 10|]; intros ?).
  unfold finetune.
  destruct (parse_args_declared _ _ "finetune" Hparse) as [v6 Hv];
    [unfold flags; rewrite !elem_of_cons; by eauto 10|].
  rewrite (if_else_getattr _ _ _ v6 Hv).
  left. rewrite Hline. by destruct (truthy v6).
Qed.

Lemma cot_read_fails_witness :
  getattr (<["num_shots" := PyInt 2]> (Argparse.defaults parser)) "cot"
  = Raise (AttributeError "cot").
Proof.
  exact (proj1 (proj2 (proj2
    (cot_read_fails ["--num_shots"; "2"]
       (<["num_shots" := PyInt 2]> (Argparse.defaults parser)) eq_refl)))).
Defined.


(** C3, as stated, fails.  A shot count of 0 given on the command line does
    not override the configured one, and without [--finetune] the value is
    [False], read from no configuration field. *)
Lemma falsy_flag_does_not_override :
  (args ← parse_args ["--num_shots"; "0"];
   num_shots args (<["num_shots" := PyInt 2]> ∅)) = Ok (PyInt 2) ∧
  (args ← parse_args []; finetune args) = Ok (PyBool false).
Proof. split; by vm_compute. Qed.

(** C3, amended. For model path, new-model path, dataset path, dataset
    config and shot count, a flag given with a true value (a non-empty
    string, a non-zero count) is the effective value, and a flag that is not
    given leaves the configuration field in effect.  The parsed finetune
    value is [None] (flag not given), a boolean, or the empty list (the flag
    written [--finetune=--]); the effective finetune value is its truth
    value, so it is [True] exactly when the flag was parsed to [True], and
    [False] in every other case, no configuration field being read.  A flag
    that no command-line string names is [None] in the parsed arguments, and
    a flag given last, followed by a string that the parser reads as an
    argument, has the converted value of that string. *)
Theorem flags_override_configuration (argv : list string)
    (args model_cfg eval_cfg : gmap string pyval) :
  parse_args argv = Ok args →
  overrides args "model_path" (model_path args model_cfg)
    (getitem model_cfg "model_path") ∧
  overrides args "new_model_path" (new_model_path args model_cfg)
    (getitem model_cfg "new_model_path") ∧
  overrides args "dataset_path" (dataset_path args model_cfg)
    (getitem model_cfg "dataset_path") ∧
  overrides args "dataset_config" (dataset_config args model_cfg)
    (getitem model_cfg "dataset_config") ∧
  overrides args "num_shots" (num_shots args eval_cfg)
    (getitem eval_cfg "num_shots") ∧
  overrides args "finetune" (finetune args) (Ok (PyBool false)) ∧
  (∃ v, args !! "finetune" = Some v ∧
        (v = PyNone ∨ v = PyList [] ∨ ∃ b, v = PyBool b) ∧
        finetune args = Ok (PyBool (truthy v))) ∧
  (∀ flag, flag ∈ flags →
     is_Some (args !! flag) ∧
     (mentions flag argv = false → args !! flag = Some PyNone)) ∧
  (∀ o o' v a ty x,
     Argparse.parse_optional parser o = Argparse.Optional (Some a) o' None →
     Argparse.act a = Argparse.Store ty →
     Argparse.parse_optional parser v = Argparse.Positional →
     Argparse.get_value ty v = Ok x →
     parse_args (argv ++ [o; v]) = Ok (<[Argparse.dest a := x]> args)).
Proof.
  intros Hparse. split_and!; try apply if_else_overrides;
    [..|intros; by eapply parse_args_last_flag].
  - destruct (parse_args_typed _ _ Hparse
                (Argparse.add_argument "--finetune" Argparse.TBool) Argparse.TBool)
      as (v & Hv & Hty); [unfold parser; rewrite !elem_of_cons; by eauto 10|done|].
    change (Argparse.dest _) with "finetune" in Hv.
    exists v. split; [done|].
    unfold finetune. rewrite (if_else_getattr _ _ _ v Hv).
    destruct Hty as [->|[->|Hty]]; [by eauto..|].
    destruct v as [|b| | |]; try done. split; [by eauto|by destruct b].
  - intros flag Hflag. split; [by eapply parse_args_declared|].
    intros Hm. rewrite (parse_args_absent _ _ _ Hparse Hm).
    unfold flags in Hflag. rewrite !elem_of_cons, elem_of_nil in Hflag.
    destruct Hflag as [->|[->|[->|[->|[->|[->|[]]]]]]]; by vm_compute.
Qed.

Lemma flags_override_configuration_witness :
  num_shots (<["num_shots" := PyInt 3]> (Argparse.defaults parser))
    (<["num_shots" := PyInt 2]> ∅) = Ok (PyInt 3) ∧
  model_path (<["num_shots" := PyInt 3]> (Argparse.defaults parser))
    (<["model_path" := PyStr "m"]> ∅) = Ok (PyStr "m") ∧
  parse_args (["--num_shots"; "3"] ++ ["--model_path"; "m"])
  = Ok (<["model_path" := PyStr "m"]>
          (<["num_shots" := PyInt 3]> (Argparse.defaults parser))).
Proof.
  assert (parse_args ["--num_shots"; "3"]
          = Ok (<["num_shots" := PyInt 3]> (Argparse.defaults parser))) as Hparse
    by (vm_compute; reflexivity).
  pose proof (flags_override_configuration ["--num_shots"; "3"]
    (<["num_shots" := PyInt 3]> (Argparse.defaults parser))
    (<["model_path" := PyStr "m"]> ∅) (<["num_shots" := PyInt 2]> ∅) Hparse)
    as (Hm & _ & _ & _ & Hn & _ & _ & _ & Hlast).
  split_and!.
  - apply Hn; reflexivity.
  - rewrite (proj2 Hm); reflexivity.
  - apply (Hlast "--model_path" "--model_path" "m"
             (Argparse.add_argument "--model_path" Argparse.TStr) Argparse.TStr
             (PyStr "m")); vm_compute; reflexivity.
Defined.
(** * Metrics *)

Section Metrics.

Context {Results : Type}.
Variable compute : metric → list string → list (list string) → result Results.

(** What [evaluation] does, stage by stage. *)
Lemma evaluation_stages (p : list string) (r : list (list string))
    (out : list (event Results)) :
  evaluation compute p r out =
  match compute Sacrebleu p r with
  | Raise e => (Raise e, out ++ [Called Sacrebleu p r])
  | Ok a =>
      match compute Meteor p r with
      | Raise e =>
          (Raise e,
           out ++ [Called Sacrebleu p r;
                   Print [PStr "------------- sacrebleu_results -------------"];
                   Print [PResults a];
                   Called Meteor p r])
      | Ok b =>
          match compute Chrf p r with
          | Raise e =>
              (Raise e,
               out ++ [Called Sacrebleu p r;
                       Print [PStr "------------- sacrebleu_results -------------"];
                       Print [PResults a];
                       Called Meteor p r;
                       Print [PStr "------------- meteor_results -------------"];
                       Print [PResults b];
                       Called Chrf p r])
          | Ok c =>
              (Ok (a, b, c),
               out ++ [Called Sacrebleu p r;
                       Print [PStr "------------- sacrebleu_results -------------"];
                       Print [PResults a];
                       Called Meteor p r;
                       Print [PStr "------------- meteor_results -------------"];
                       Print [PResults b];
                       Called Chrf p r;
                       Print [PStr "------------- chrf_results -------------"];
                       Print [PResults c]])
          end
      end
  end.
Proof.
  unfold evaluation, metric_compute, print, mbind, script_bind, mret, script_ret.
  destruct (compute Sacrebleu p r); [|done].
  rewrite <- !(assoc_L (++)). cbn [app].
  destruct (compute Meteor p r); [|done].
  rewrite <- !(assoc_L (++)). cbn [app].
  destruct (compute Chrf p r); [|done].
  rewrite <- !(assoc_L (++)). cbn [app]. done.
Qed.


(** C7, amended. The metric computations are sequential stages of one
    run.  The first failure ends the run with that exception: no later
    metric is computed; what the earlier stages computed has been printed
    and stays printed. When none fails, the three results are computed in
    the order sacrebleu, meteor, chrf. *)
Theorem metric_failure_stops_run (p : list string) (r : list (list string))
    (out : list (event Results)) :
  (∀ e, compute Sacrebleu p r = Raise e →
     evaluation compute p r out = (Raise e, out ++ [Called Sacrebleu p r])) ∧
  (∀ a e, compute Sacrebleu p r = Ok a → compute Meteor p r = Raise e →
     evaluation compute p r out =
     (Raise e,
      out ++ [Called Sacrebleu p r;
              Print [PStr "------------- sacrebleu_results -------------"];
              Print [PResults a];
              Called Meteor p r])) ∧
  (∀ a b e, compute Sacrebleu p r = Ok a → compute Meteor p r = Ok b →
     compute Chrf p r = Raise e →
     evaluation compute p r out =
     (Raise e,
      out ++ [Called Sacrebleu p r;
              Print [PStr "------------- sacrebleu_results -------------"];
              Print [PResults a];
              Called Meteor p r;
              Print [PStr "------------- meteor_results -------------"];
              Print [PResults b];
              Called Chrf p r])) ∧
  (∀ a b c, compute Sacrebleu p r = Ok a → compute Meteor p r = Ok b →
     compute Chrf p r = Ok c →
     evaluation compute p r out =
     (Ok (a, b, c),
      out ++ [Called Sacrebleu p r;
              Print [PStr "------------- sacrebleu_results -------------"];
              Print [PResults a];
              Called Meteor p r;
              Print [PStr "------------- meteor_results -------------"];
              Print [PResults b];
              Called Chrf p r;
              Print [PStr "------------- chrf_results -------------"];
              Print [PResults c]])).
Proof.
  split_and!; intros; rewrite evaluation_stages;
    repeat match goal with H : compute _ _ _ = _ |- _ => rewrite H; clear H end;
    done.
Qed.

(** The metric calls of [evaluation]: sacrebleu, then meteor if sacrebleu
    returned, then chrf if meteor returned, all on the same two lists. *)
Lemma evaluation_calls (p : list string) (r : list (list string))
    (out : list (event Results)) :
  ∃ n log,
    (evaluation compute p r out).2 = out ++ log ∧
    calls log = take (S n) [(Sacrebleu, p, r); (Meteor, p, r); (Chrf, p, r)] ∧
    (is_Ok_result (compute Sacrebleu p r) → is_Ok_result (compute Meteor p r) →
     calls log = [(Sacrebleu, p, r); (Meteor, p, r); (Chrf, p, r)]) ∧
    (∀ v, (evaluation compute p r out).1 = Ok v →
     calls log = [(Sacrebleu, p, r); (Meteor, p, r); (Chrf, p, r)]).
Proof.
  rewrite evaluation_stages.
  destruct (compute Sacrebleu p r) as [a|e].
  - destruct (compute Meteor p r) as [b|e].
    + destruct (compute Chrf p r) as [c|e]; exists 2%nat; eexists;
        (split; [reflexivity|]); done.
    + exists 1%nat; eexists; (split; [reflexivity|]); by split_and!.
  - exists 0%nat; eexists; (split; [reflexivity|]); by split_and!.
Qed.

End Metrics.

(** C7, as stated, fails: when the sacrebleu computation raises, the run
    ends there, and meteor and chrf, which would have returned a result,
    are never computed. *)
Lemma sacrebleu_failure_blocks_the_others :
  sacrebleu_down Meteor ["a"] [["a"]] = Ok 1%nat ∧
  sacrebleu_down Chrf ["a"] [["a"]] = Ok 1%nat ∧
  evaluation sacrebleu_down ["a"] [["a"]] []
  = (Raise (RuntimeError "sacrebleu"), [Called Sacrebleu ["a"] [["a"]]]).
Proof. split_and!; reflexivity. Qed.

Lemma metric_failure_stops_run_witness :
  evaluation meteor_down ["a"] [["a"]] [] =
  (Raise (RuntimeError "meteor"),
   [Called Sacrebleu ["a"] [["a"]];
    Print [PStr "------------- sacrebleu_results -------------"];
    Print [PResults 1%nat];
    Called Meteor ["a"] [["a"]]]).
Proof.
  exact (proj1 (proj2 (metric_failure_stops_run meteor_down ["a"] [["a"]] []))
           1%nat (RuntimeError "meteor") eq_refl eq_refl).
Defined.

(** * Generation *)

Lemma predictions_zip (outputs : list (list string)) (prompts : list string) :
  Forall (λ o, o ≠ []) outputs →
  predictions outputs prompts
  = Ok (zip_with (λ o p, drop_chars (String.length p) (default "" (head o)))
          outputs prompts).
Proof.
  unfold predictions. intros Hne. revert prompts.
  induction Hne as [|o outputs Ho _ IH]; intros prompts; [done|].
  destruct prompts as [|p prompts]; [done|].
  cbn [zip zip_with comprehension]. rewrite IH.
  destruct o as [|g rest]; [done|]. done.
Qed.

Lemma generation_result {Results : Type}
    (pipeline : list string → result (list (list string)))
    (prompts : list string) (outputs : list (list string))
    (out : list (event Results)) :
  pipeline prompts = Ok outputs →
  Forall (λ o, o ≠ []) outputs →
  generation pipeline prompts out
  = (Ok (zip_with (λ o p, drop_chars (String.length p) (default "" (head o)))
           outputs prompts),
     out ++ [Print [PStr "# of test samples:"; PInt (Z.of_nat (length prompts))]]).
Proof.
  intros Hpipe Hne. unfold generation, print, lift, mbind, script_bind.
  by rewrite Hpipe, predictions_zip.
Qed.

(** C8. When the pipeline returns one non-empty output list per prompt, the
    generation stage records one prediction per prompt, in the order of the
    prompts: the first generated text of the output with its first
    [len(prompt)] characters removed (so the continuation alone, when the
    generated text begins with the prompt). *)
Theorem one_prediction_per_prompt {Results : Type}
    (pipeline : list string → result (list (list string)))
    (prompts : list string) (outputs : list (list string))
    (out : list (event Results)) :
  pipeline prompts = Ok outputs →
  length outputs = length prompts →
  Forall (λ o, o ≠ []) outputs →
  ∃ preds,
    generation pipeline prompts out
    = (Ok preds,
       out ++ [Print [PStr "# of test samples:"; PInt (Z.of_nat (length prompts))]]) ∧
    predictions outputs prompts = Ok preds ∧
    length preds = length prompts ∧
    (∀ i p, prompts !! i = Some p →
       ∃ g rest, outputs !! i = Some (g :: rest) ∧
                 preds !! i = Some (drop_chars (String.length p) g)) ∧
    (∀ i p c rest, prompts !! i = Some p → outputs !! i = Some ((p +:+ c) :: rest) →
       preds !! i = Some c).
Proof.
  intros Hpipe Hlen Hne.
  eexists. split_and!.
  - by apply generation_result.
  - by apply predictions_zip.
  - rewrite length_zip_with. lia.
  - intros i p Hi.
    destruct (lookup_lt_is_Some_2 outputs i) as [o Ho].
    { rewrite Hlen. by eapply lookup_lt_Some. }
    rewrite Forall_forall in Hne.
    destruct o as [|g rest]; [by destruct (Hne [] (list_elem_of_lookup_2 _ _ _ Ho))|].
    exists g, rest. split; [done|].
    rewrite lookup_zip_with, Ho. cbn. rewrite Hi. done.
  - intros i p c rest Hi Ho.
    rewrite lookup_zip_with, Ho. cbn. rewrite Hi. cbn.
    by rewrite drop_chars_app.
Qed.

Lemma one_prediction_per_prompt_witness :
  ∃ preds, predictions [["about"]; ["cout"]] ["ab"; "c"] = Ok preds ∧
           length preds = 2%nat ∧ preds !! 0%nat = Some "out".
Proof.
  destruct (one_prediction_per_prompt (Results := nat) echo_pipeline ["ab"; "c"]
              [["about"]; ["cout"]] [] eq_refl eq_refl)
    as (preds & _ & Hp & Hlen & _ & Hc).
  { repeat constructor; discriminate. }
  exists preds. split_and!; [exact Hp|exact Hlen|].
  exact (Hc 0%nat "ab" "out" [] eq_refl eq_refl).
Defined.

(** * The example loop *)

Section Report.

Context {Results : Type}.

Lemma example_pair_out_of_range (predictions : list string)
    (references : list (list string)) (i : nat) (out : list (event Results)) :
  (length predictions ≤ i)%nat →
  example_pair predictions references i out = (Raise IndexError, out).
Proof.
  intros Hi. unfold example_pair, index, lift, mbind, script_bind.
  by rewrite (lookup_ge_None_2 predictions i Hi).
Qed.

Lemma example_pair_result (predictions : list string)
    (references : list (list string)) (i : nat) (out : list (event Results)) :
  (example_pair predictions references i out).1 = Raise IndexError ∨
  example_pair predictions references i out
  = (Ok (), out ++ example_lines predictions references i).
Proof.
  unfold example_pair, example_lines, index, lift, print.
  destruct (predictions !! i) as [p|]; [|by left].
  destruct (references !! i) as [[|r0 rest]|]; [by left| |by left].
  right. cbn. unfold mbind, script_bind. cbn. by rewrite <- (assoc_L (++)).
Qed.

Lemma for_in_example_raises (predictions : list string)
    (references : list (list string)) (l : list nat) (out : list (event Results)) :
  (∃ i, i ∈ l ∧ (length predictions ≤ i)%nat) →
  (for_in l (example_pair predictions references) out).1 = Raise IndexError.
Proof.
  revert out. induction l as [|x l IH]; intros out (i & Hin & Hi).
  - by apply elem_of_nil in Hin.
  - cbn [for_in]. unfold mbind, script_bind.
    destruct (example_pair_result predictions references x out) as [Hr|Hr].
    + destruct (example_pair _ _ x out) as [[|e] out']; cbn in Hr; [done|].
      by injection Hr as ->.
    + rewrite Hr. apply IH. exists i. split; [|done].
      apply elem_of_cons in Hin as [->|Hin]; [|done].
      rewrite example_pair_out_of_range in Hr by done. done.
Qed.

Lemma for_in_example_prints (predictions : list string)
    (references : list (list string)) (l : list nat) (out : list (event Results)) :
  Forall (λ i, (i < length predictions)%nat ∧
               ∃ r0 rest, references !! i = Some (r0 :: rest)) l →
  for_in l (example_pair predictions references) out
  = (Ok (), out ++ flat_map (example_lines predictions references) l).
Proof.
  intros Hl. revert out.
  induction Hl as [|x l [Hx (r0 & rest & Hr)] _ IH]; intros out.
  - cbn. by rewrite (right_id_L [] (++)).
  - cbn [for_in flat_map]. unfold mbind, script_bind.
    destruct (example_pair_result predictions references x out) as [Hp|Hp].
    + exfalso. revert Hp.
      unfold example_pair, index, lift, print, mbind, script_bind.
      destruct (lookup_lt_is_Some_2 predictions x Hx) as [p ->]. rewrite Hr. done.
    + rewrite Hp, IH. by rewrite (assoc_L (++)).
Qed.


Lemma for_in_app {A : Type} (l1 l2 : list A)
    (body : A → script (list (event Results)) ()) (out : list (event Results)) :
  for_in (l1 ++ l2) body out =
  match for_in l1 body out with
  | (Ok _, out') => for_in l2 body out'
  | (Raise e, out') => (Raise e, out')
  end.
Proof.
  revert out. induction l1 as [|x l1 IH]; intros out; [done|].
  cbn [app for_in]. unfold mbind, script_bind.
  destruct (body x out) as [[[]|e] out']; [apply IH|done].
Qed.

(** With ten predictions or more, each with a reference, the loop prints
    the ten pairs and the script ends. *)
Lemma example_prints_ten (predictions : list string)
    (references : list (list string)) (out : list (event Results)) :
  (10 ≤ length predictions)%nat →
  Forall (λ i, ∃ r0 rest, references !! i = Some (r0 :: rest)) (seq 0 10) →
  example predictions references out
  = (Ok (),
     out ++ [Print [PStr ""]; Print [PStr "------------- example -------------"]]
         ++ flat_map (example_lines predictions references) (seq 0 10)).
Proof.
  intros Hlen Hrefs. unfold example, print, mbind, script_bind.
  rewrite for_in_example_prints.
  - by rewrite <- !(assoc_L (++)).
  - apply Forall_forall. intros i Hi. split.
    + apply elem_of_seq in Hi. lia.
    + rewrite Forall_forall in Hrefs. by apply Hrefs.
Qed.

(** C10. The loop always asks for ten pairs.  With fewer than ten
    predictions (each with a reference) it prints the pairs there are and
    then raises [IndexError] on the first missing prediction: the console
    output does not end with ten pairs. *)
Theorem example_stops_short (predictions : list string)
    (references : list (list string)) (out : list (event Results)) :
  (length predictions < 10)%nat →
  Forall (λ i, ∃ r0 rest, references !! i = Some (r0 :: rest))
    (seq 0 (length predictions)) →
  example predictions references out
  = (Raise IndexError,
     out ++ [Print [PStr ""]; Print [PStr "------------- example -------------"]]
         ++ flat_map (example_lines predictions references)
              (seq 0 (length predictions))).
Proof.
  intros Hlen Hrefs. unfold example, print, mbind, script_bind.
  replace (seq 0 10) with
    (seq 0 (length predictions) ++ seq (length predictions) (10 - length predictions))
    by (rewrite <- seq_app; f_equal; lia).
  rewrite for_in_app, for_in_example_prints.
  - destruct (10 - length predictions)%nat as [|m] eqn:Hm; [lia|].
    cbn [seq for_in]. unfold mbind, script_bind.
    rewrite example_pair_out_of_range by done.
    by rewrite <- !(assoc_L (++)).
  - apply Forall_forall. intros i Hi. split.
    + apply elem_of_seq in Hi. lia.
    + rewrite Forall_forall in Hrefs. by apply Hrefs.
Qed.

End Report.

Lemma example_stops_short_witness :
  example (Results := nat) ["p0"; "p1"] [["r0"]; ["r1"]] []
  = (Raise IndexError,
     [Print [PStr ""]; Print [PStr "------------- example -------------"];
      Print [PStr "system:"; PStr "p0"]; Print [PStr "reference:"; PStr "r0"];
      Print [PStr "system:"; PStr "p1"]; Print [PStr "reference:"; PStr "r1"]]).
Proof.
  apply (example_stops_short (Results := nat) ["p0"; "p1"] [["r0"]; ["r1"]] []).
  - cbn. lia.
  - repeat constructor; by eexists _, _.
Defined.

(** * From the test rows to the metric calls *)

Section Pipeline.

Context {Results : Type}.
Variable apply_chat_template : string → string.
Variable pipeline : list string → result (list (list string)).
Variable compute : metric → list string → list (list string) → result Results.

Lemma append_prompt_row (cot : bool) (prompt_examples : string) (r : Row)
    (ps : list string) (rs : list (list string)) :
  append_prompt apply_chat_template cot prompt_examples (ps, rs)
    (select_columns cot r)
  = Ok (ps ++ [prompt_of_row apply_chat_template cot prompt_examples r],
        rs ++ [[english r]]).
Proof.
  unfold append_prompt. rewrite prompt_text.
  assert (getitem (select_columns cot r) "english" = Ok (english r)) as ->.
  { unfold getitem, select_columns. destruct cot; by simplify_map_eq. }
  done.
Qed.

Lemma for_each_append_prompt (cot : bool) (prompt_examples : string)
    (test : list Row) (ps : list string) (rs : list (list string)) :
  for_each (append_prompt apply_chat_template cot prompt_examples)
    (dataset_test cot test) (ps, rs)
  = Ok (ps ++ (prompt_of_row apply_chat_template cot prompt_examples <$> test),
        rs ++ ((λ r, [english r]) <$> test)).
Proof.
  revert ps rs. induction test as [|r test IH]; intros ps rs.
  - cbn. by rewrite !(right_id_L [] (++)).
  - unfold dataset_test in *. rewrite !fmap_cons. cbn [for_each].
    rewrite append_prompt_row. cbn [mbind result_bind]. rewrite IH.
    by rewrite <- !(assoc_L (++)).
Qed.

Lemma prompts_references_rows (cot : bool) (prompt_examples : string)
    (test : list Row) :
  prompts_references apply_chat_template cot prompt_examples (dataset_test cot test)
  = Ok (prompt_of_row apply_chat_template cot prompt_examples <$> test,
        (λ r, [english r]) <$> test).
Proof. unfold prompts_references. by rewrite for_each_append_prompt. Qed.

Lemma example_pair_prints (predictions : list string)
    (references : list (list string)) (i : nat) (out : list (event Results)) :
  ∃ log, (example_pair predictions references i out).2 = out ++ log ∧
         calls log = [].
Proof.
  unfold example_pair, index, lift, print.
  destruct (predictions !! i) as [p|]; [|by exists []; rewrite (right_id_L [] (++))].
  destruct (references !! i) as [[|r0 rest]|]; unfold mbind, script_bind; cbn.
  - by eexists [_].
  - eexists [_; _]. by rewrite <- (assoc_L (++)).
  - by eexists [_].
Qed.

Lemma for_in_example_pair_prints (predictions : list string)
    (references : list (list string)) (l : list nat) (out : list (event Results)) :
  ∃ log, (for_in l (example_pair predictions references) out).2 = out ++ log ∧
         calls log = [].
Proof.
  revert out. induction l as [|x l IH]; intros out.
  - exists []. by rewrite (right_id_L [] (++)).
  - cbn [for_in]. unfold mbind, script_bind.
    destruct (example_pair_prints predictions references x out) as (l1 & H1 & Hc1).
    destruct (example_pair predictions references x out) as [[[]|e] out'];
      cbn in H1; subst out'.
    + destruct (IH (out ++ l1)) as (l2 & -> & Hc2).
      exists (l1 ++ l2). split; [by rewrite (assoc_L (++))|].
      unfold calls in *. by rewrite omap_app, Hc1, Hc2.
    + by exists l1.
Qed.

Lemma example_prints_only (predictions : list string)
    (references : list (list string)) (out : list (event Results)) :
  ∃ log, (example predictions references out).2 = out ++ log ∧ calls log = [].
Proof.
  unfold example, print, mbind, script_bind.
  destruct (for_in_example_pair_prints predictions references (seq 0 10)
              ((out ++ [Print [PStr ""]])
               ++ [Print [PStr "------------- example -------------"]]))
    as (log & -> & Hc).
  eexists ([_; _] ++ log). split.
  - by rewrite <- !(assoc_L (++)).
  - unfold calls in *. by rewrite omap_app, Hc.
Qed.

(** C6. When the pipeline returns one non-empty output list per prompt,
    the references are one one-element list per test row, as many as the
    predictions, and every metric computation of the run is called with
    these same predictions and these same references: sacrebleu first,
    then meteor and chrf, each once the one before has returned. *)
Theorem metrics_share_inputs (cot : bool) (prompt_examples : string)
    (test : list Row) (outputs : list (list string))
    (out : list (event Results)) :
  pipeline (prompt_of_row apply_chat_template cot prompt_examples <$> test)
    = Ok outputs →
  length outputs = length test →
  Forall (λ o, o ≠ []) outputs →
  ∃ preds log,
    predictions outputs
      (prompt_of_row apply_chat_template cot prompt_examples <$> test) = Ok preds ∧
    prompts_references apply_chat_template cot prompt_examples (dataset_test cot test)
      = Ok (prompt_of_row apply_chat_template cot prompt_examples <$> test,
            (λ r, [english r]) <$> test) ∧
    length ((λ r, [english r]) <$> test) = length preds ∧
    Forall (λ refs, length refs = 1%nat) ((λ r, [english r]) <$> test) ∧
    (report apply_chat_template pipeline compute cot prompt_examples
       (dataset_test cot test) out).2 = out ++ log ∧
    (∃ n, calls log = take (S n)
            [(Sacrebleu, preds, (λ r, [english r]) <$> test);
             (Meteor, preds, (λ r, [english r]) <$> test);
             (Chrf, preds, (λ r, [english r]) <$> test)]) ∧
    (∀ m p r, (m, p, r) ∈ calls log →
       p = preds ∧ r = (λ r, [english r]) <$> test) ∧
    (is_Ok_result (compute Sacrebleu preds ((λ r, [english r]) <$> test)) →
     is_Ok_result (compute Meteor preds ((λ r, [english r]) <$> test)) →
     calls log = [(Sacrebleu, preds, (λ r, [english r]) <$> test);
                  (Meteor, preds, (λ r, [english r]) <$> test);
                  (Chrf, preds, (λ r, [english r]) <$> test)]).
Proof.
  intros Hpipe Hlen Hne.
  set (prompts := prompt_of_row apply_chat_template cot prompt_examples <$> test) in *.
  set (references := (λ r, [english r]) <$> test).
  pose proof (generation_result pipeline prompts outputs out Hpipe Hne) as Hgen.
  pose proof (predictions_zip outputs prompts Hne) as Hpreds.
  set (preds := zip_with _ outputs prompts) in *.
  assert (length preds = length prompts) as Hplen.
  { unfold preds, prompts. rewrite length_zip_with, length_fmap. lia. }
  destruct (evaluation_calls compute preds references
              (out ++ [Print [PStr "# of test samples:";
                              PInt (Z.of_nat (length prompts))]]))
    as (n & elog & Helog & Hcalls & Hall & _).
  assert (∃ log,
    (report apply_chat_template pipeline compute cot prompt_examples
       (dataset_test cot test) out).2 = out ++ log ∧
    calls log = calls elog) as (log & Hlog & Hclog).
  { unfold report. rewrite prompts_references_rows. fold prompts references.
    unfold lift at 1. unfold mbind at 1, script_bind at 1. cbn beta iota.
    unfold mbind at 1, script_bind at 1. rewrite Hgen.
    unfold mbind at 1, script_bind at 1.
    destruct (evaluation compute preds references _) as [[v|e] out'];
      cbn in Helog; subst out'.
    - destruct (example_prints_only preds references
                  ((out ++ [Print [PStr "# of test samples:";
                                   PInt (Z.of_nat (length prompts))]]) ++ elog))
        as (xlog & -> & Hx).
      eexists (_ :: elog ++ xlog). split.
      + rewrite <- !(assoc_L (++)). done.
      + unfold calls in *. cbn. by rewrite omap_app, Hx, (right_id_L [] (++)).
    - eexists (_ :: elog). split.
      + by rewrite <- !(assoc_L (++)).
      + done. }
  exists preds, log. split_and!; try done.
  - apply prompts_references_rows.
  - unfold references. rewrite length_fmap, Hplen. unfold prompts.
    by rewrite length_fmap.
  - apply Forall_fmap, Forall_forall. done.
  - exists n. by rewrite Hclog.
  - intros m p r. rewrite Hclog, Hcalls. intros Hin%elem_of_take.
    destruct Hin as (i & Hin & _).
    destruct i as [|[|[|i]]]; cbn in Hin; by simplify_eq.
  - intros H1 H2. rewrite Hclog. by apply Hall.
Qed.

End Pipeline.

Lemma metrics_share_inputs_witness :
  ∃ preds log,
    (report (Results := nat) (λ s, s) echo_pipeline meteor_down false ""
       (dataset_test false [sample_row]) []).2 = log ∧
    length [[english sample_row]] = length preds ∧
    ∀ m p r, (m, p, r) ∈ calls log → p = preds ∧ r = [[english sample_row]].
Proof.
  destruct (metrics_share_inputs (Results := nat) (λ s, s) echo_pipeline meteor_down
              false "" [sample_row] _ [] eq_refl eq_refl)
    as (preds & log & _ & _ & Hlen & _ & Hlog & _ & Hsame & _).
  { repeat constructor; discriminate. }
  exists preds, log. split_and!; [exact Hlog|exact Hlen|exact Hsame].
Defined.

(** * Saved artifacts of the fine-tuning script *)

Ltac lookup_inserts :=
  repeat first [ rewrite lookup_insert_eq
               | rewrite lookup_insert_ne by done
               | progress cbn ].

Section Artifacts.

Context {Model Adapter Tokenizer : Type}.
Variable from_pretrained : string → result Model.
Variable merge_and_unload : Model * Adapter → Model.

Lemma lora_path_differs (new_model_path : string) :
  new_model_path +:+ "-lora" ≠ new_model_path.
Proof. by apply app_neq_self. Qed.

(** C9. The adapter weights are saved first, in the directory
    [new_model_path + "-lora"].  When the base model then loads, the
    merged model (the base model with the adapter read back from that
    directory) and the tokenizer are saved in [new_model_path], a
    different directory, and the adapter directory keeps what the first
    save put there.  When the base model does not load, the adapter is
    already saved and [new_model_path] is untouched. *)
Theorem adapter_then_merged_model_saved (model_path new_model_path : string)
    (trained : Adapter) (tokenizer : Tokenizer)
    (w : world Model Adapter Tokenizer) :
  new_model_path +:+ "-lora" ≠ new_model_path ∧
  (∀ base, from_pretrained model_path = Ok base →
     ∃ w',
       save_and_merge from_pretrained merge_and_unload model_path new_model_path
         trained tokenizer w = (Ok (), w') ∧
       listdir w' (new_model_path +:+ "-lora")
       = {| adapter_files := Some trained;
            model_files := model_files (listdir w (new_model_path +:+ "-lora"));
            tokenizer_files :=
              tokenizer_files (listdir w (new_model_path +:+ "-lora")) |} ∧
       listdir w' new_model_path
       = {| adapter_files := adapter_files (listdir w new_model_path);
            model_files := Some (merge_and_unload (base, trained));
            tokenizer_files := Some tokenizer |} ∧
       (∀ path, path ≠ new_model_path +:+ "-lora" → path ≠ new_model_path →
          files w' !! path = files w !! path) ∧
       console w'
       = console w ++
         ["Model training complete and peft adapter saved to: "
            +:+ new_model_path +:+ "-lora";
          "Model load complete and full model saved to: " +:+ new_model_path]) ∧
  (∀ e, from_pretrained model_path = Raise e →
     ∃ w',
       save_and_merge from_pretrained merge_and_unload model_path new_model_path
         trained tokenizer w = (Raise e, w') ∧
       adapter_files (listdir w' (new_model_path +:+ "-lora")) = Some trained ∧
       files w' !! new_model_path = files w !! new_model_path).
Proof.
  pose proof (lora_path_differs new_model_path) as Hne.
  assert (new_model_path ≠ new_model_path +:+ "-lora") as Hne' by done.
  split_and!; [done|..].
  - intros base Hbase. eexists. split.
    + unfold save_and_merge, save_adapter, print_line, lift, peft_from_pretrained,
        save_model, save_tokenizer, mbind, script_bind.
      rewrite Hbase. unfold listdir; cbn. rewrite lookup_insert_eq. cbn.
      reflexivity.
    + unfold listdir; cbn. split_and!.
      * by lookup_inserts.
      * by lookup_inserts.
      * intros path H1 H2. by lookup_inserts.
      * by rewrite <- (assoc_L (++)).
  - intros e He. eexists. split.
    + unfold save_and_merge, save_adapter, print_line, lift, mbind, script_bind.
      rewrite He. reflexivity.
    + unfold listdir; cbn. split; by lookup_inserts.
Qed.

End Artifacts.

Lemma adapter_then_merged_model_saved_witness :
  ∃ w',
    save_and_merge (Tokenizer := string) sample_hub sample_merge "base" "han" 5%nat "tok"
      {| files := ∅; console := [] |} = (Ok (), w') ∧
    listdir w' "han-lora"
    = {| adapter_files := Some 5%nat; model_files := None; tokenizer_files := None |} ∧
    listdir w' "han"
    = {| adapter_files := None; model_files := Some 12%nat;
         tokenizer_files := Some "tok" |}.
Proof.
  destruct (proj1 (proj2 (adapter_then_merged_model_saved (Tokenizer := string)
              sample_hub sample_merge "base" "han" 5%nat "tok"
              {| files := ∅; console := [] |})) 7%nat eq_refl)
    as (w' & Hrun & Hlora & Hnew & _).
  exists w'. split_and!; [exact Hrun|exact Hlora|exact Hnew].
Defined.

(** * More about the parsed command line *)

Lemma defaults_attributes (name : string) :
  Argparse.defaults parser !! name
  = if bool_decide (name ∈ flags) then Some PyNone else None.
Proof.
  unfold parser, flags.
  cbn [Argparse.defaults Argparse.act Argparse.add_argument Argparse.help_argument
       Argparse.dest drop_chars].
  repeat (rewrite lookup_insert; case_decide;
          [subst name; rewrite bool_decide_true;
             [done|rewrite !elem_of_cons; by eauto 10]|]).
  rewrite lookup_empty, bool_decide_false; [done|].
  rewrite !elem_of_cons, elem_of_nil.
  intros [?|[?|[?|[?|[?|[?|[]]]]]]]; congruence.
Qed.

(** X1. The parsed arguments of an accepted command line have exactly the
    six declared attributes, whatever was given. *)
Theorem parse_args_attributes (argv : list string) (args : gmap string pyval)
    (name : string) :
  parse_args argv = Ok args → (is_Some (args !! name) ↔ name ∈ flags).
Proof.
  intros (l & -> & Hl)%parse_args_stores. revert name.
  apply (foldl_assign_inv (λ ns, ∀ name, is_Some (ns !! name) ↔ name ∈ flags)).
  - intros name. rewrite defaults_attributes. case_bool_decide; [by split; eauto|].
    split; [by intros []|done].
  - intros ns [a x] Hin Hns name. unfold assign; cbn.
    rewrite Forall_forall in Hl.
    destruct (Hl _ Hin) as (tok & o & e & ty & Hc & _ & _ & Hact & _). cbn in *.
    assert (Argparse.dest a ∈ flags) as Hd.
    { rewrite parser_stored_flags.
      apply list_elem_of_omap. exists a. by rewrite Hact. }
    destruct (decide (Argparse.dest a = name)) as [<-|Hne].
    + rewrite lookup_insert_eq. split; [done|by eauto].
    + by rewrite lookup_insert_ne.
Qed.

Lemma parse_args_attributes_witness :
  is_Some ((<["num_shots" := PyInt 2]> (Argparse.defaults parser)) !! "finetune") ↔
  "finetune" ∈ flags.
Proof.
  exact (parse_args_attributes ["--num_shots"; "2"]
           (<["num_shots" := PyInt 2]> (Argparse.defaults parser)) "finetune" eq_refl).
Defined.

(** X2. In the parsed arguments of an accepted command line, each of the
    four paths is [None], a string, or the empty list; the shot count is
    [None], an integer, or the empty list; the finetune flag is [None], a
    boolean, or the empty list.  (The empty list is what an option written
    [--name=--] stores.) *)
Theorem parse_args_types (argv : list string) (args : gmap string pyval) :
  parse_args argv = Ok args →
  (∀ flag, flag ∈ ["model_path"; "new_model_path"; "dataset_path"; "dataset_config"] →
     args !! flag = Some PyNone ∨ args !! flag = Some (PyList []) ∨
     ∃ s, args !! flag = Some (PyStr s)) ∧
  (args !! "num_shots" = Some PyNone ∨ args !! "num_shots" = Some (PyList []) ∨
   ∃ z, args !! "num_shots" = Some (PyInt z)) ∧
  (args !! "finetune" = Some PyNone ∨ args !! "finetune" = Some (PyList []) ∨
   ∃ b, args !! "finetune" = Some (PyBool b)).
Proof.
  intros Hparse.
  assert (∀ o ty, Argparse.add_argument o ty ∈ parser →
            ∃ v, args !! drop_chars 2 o = Some v ∧
                 (v = PyNone ∨ v = PyList [] ∨ has_type ty v))
    as Hty by (intros o ty Hin; by apply (parse_args_typed _ _ Hparse _ ty Hin)).
  assert (∀ o ty, Argparse.add_argument o ty ∈ parser →
            args !! drop_chars 2 o = Some PyNone ∨
            args !! drop_chars 2 o = Some (PyList []) ∨
            ∃ v, args !! drop_chars 2 o = Some v ∧ has_type ty v) as Hty'.
  { intros o ty Hin. destruct (Hty o ty Hin) as (v & Hv & [->|[->|Ht]]); by eauto. }
  split_and!.
  - intros flag Hflag. rewrite !elem_of_cons, elem_of_nil in Hflag.
    destruct Hflag as [->|[->|[->|[->|[]]]]].
    + destruct (Hty' "--model_path" Argparse.TStr) as [?|[?|(v & Hv & Ht)]];
        [unfold parser; rewrite !elem_of_cons; by eauto 10|by eauto..|].
      destruct v; try done. right; right. by eexists.
    + destruct (Hty' "--new_model_path" Argparse.TStr) as [?|[?|(v & Hv & Ht)]];
        [unfold parser; rewrite !elem_of_cons; by eauto 10|by eauto..|].
      destruct v; try done. right; right. by eexists.
    + destruct (Hty' "--dataset_path" Argparse.TStr) as [?|[?|(v & Hv & Ht)]];
        [unfold parser; rewrite !elem_of_cons; by eauto 10|by eauto..|].
      destruct v; try done. right; right. by eexists.
    + destruct (Hty' "--dataset_config" Argparse.TStr) as [?|[?|(v & Hv & Ht)]];
        [unfold parser; rewrite !elem_of_cons; by eauto 10|by eauto..|].
      destruct v; try done. right; right. by eexists.
  - destruct (Hty' "--num_shots" Argparse.TInt) as [?|[?|(v & Hv & Ht)]];
      [unfold parser; rewrite !elem_of_cons; by eauto 10|by eauto..|].
    destruct v; try done. right; right. by eexists.
  - destruct (Hty' "--finetune" Argparse.TBool) as [?|[?|(v & Hv & Ht)]];
      [unfold parser; rewrite !elem_of_cons; by eauto 10|by eauto..|].
    destruct v; try done. right; right. by eexists.
Qed.

Lemma parse_args_types_witness :
  (<["finetune" := PyList []]> (Argparse.defaults parser)) !! "finetune" = Some PyNone ∨
  (<["finetune" := PyList []]> (Argparse.defaults parser)) !! "finetune"
    = Some (PyList []) ∨
  ∃ b, (<["finetune" := PyList []]> (Argparse.defaults parser)) !! "finetune"
       = Some (PyBool b).
Proof.
  exact (proj2 (proj2 (parse_args_types ["--finetune=--"]
           (<["finetune" := PyList []]> (Argparse.defaults parser)) eq_refl))).
Defined.

Lemma parser_help (a : Argparse.argument) :
  a ∈ parser → Argparse.act a = Argparse.Help → a = Argparse.help_argument.
Proof.
  unfold parser. rewrite !elem_of_cons, elem_of_nil.
  intros [->|[->|[->|[->|[->|[->|[->|[]]]]]]]]; done.
Qed.

(** X3. A command line that is not accepted ends the script with
    [SystemExit] and nothing else: status 0 or 2, and status 0 only when one
    of its strings names the help option.  All the strings are read before
    any action is taken, so an ambiguous abbreviation (before any [--])
    gives status 2 wherever the help option stands; and the help option,
    reached after strings that the parser could process (unexpected
    arguments included), gives status 0 whatever follows it, as long as
    what follows holds no ambiguous abbreviation. *)
Theorem parse_args_exit_status (argv : list string) :
  (∀ e, parse_args argv = Raise e →
     (e = SystemExit 0 ∨ e = SystemExit 2) ∧
     (e = SystemExit 0 →
      ∃ tok o x,
        tok ∈ argv ∧
        Argparse.parse_optional parser tok
        = Argparse.Optional (Some Argparse.help_argument) o x)) ∧
  (∀ before tok after,
     argv = before ++ tok :: after → "--" ∉ before → tok ≠ "--" →
     Argparse.parse_optional parser tok = Argparse.Ambiguous →
     parse_args argv = Raise (SystemExit 2)) ∧
  (∀ r o o' rest,
     Argparse.parse_known_args parser argv = Ok r → "--" ∉ argv →
     Argparse.parse_optional parser o
     = Argparse.Optional (Some Argparse.help_argument) o' None →
     Forall (λ tok, tok = "--" ∨
                    Argparse.parse_optional parser tok ≠ Argparse.Ambiguous) rest →
     parse_args (argv ++ o :: rest) = Raise (SystemExit 0)).
Proof.
  split_and!.
  - intros e [->|[-> (tok & a & o & x & Hin & Hopt & Ha & Hact)]]%ArgparseFacts.parse_args_raise.
    + split; [by right|done].
    + split; [by left|]. intros _. exists tok, o, x. split; [done|].
      by rewrite <- (parser_help a Ha Hact).
  - intros before tok after -> Hd Htok Ha. unfold parse_args, Argparse.parse_args,
      Argparse.parse_known_args.
    by rewrite (ArgparseFacts.arg_strings_pattern_ambiguous _ _ _ _ Hd Htok Ha).
  - intros r o o' rest Hr Hd Ho Hrest.
    apply (ArgparseFacts.parse_args_help parser argv rest r o o' Argparse.help_argument);
      try done.
    intros ->. by vm_compute in Ho.
Qed.

Lemma parse_args_exit_status_witness :
  parse_args ["--help"; "--n"] = Raise (SystemExit 2) ∧
  parse_args (["extra"] ++ "--help" :: ["--unknown=1"; "--"; "x"]) = Raise (SystemExit 0).
Proof.
  split.
  - apply (proj1 (proj2 (parse_args_exit_status ["--help"; "--n"]))
             ["--help"] "--n" []); [reflexivity| |done|vm_compute; reflexivity].
    by intros [[=]|[]%elem_of_nil]%elem_of_cons.
  - apply (proj2 (proj2 (parse_args_exit_status ["extra"]))
             (Argparse.defaults parser, ["extra"]) "--help" "--help").
    + vm_compute; reflexivity.
    + by intros [[=]|[]%elem_of_nil]%elem_of_cons.
    + vm_compute; reflexivity.
    + repeat (apply Forall_cons; split;
        [first [by left|right; vm_compute; discriminate]|]).
      by apply Forall_nil.
Defined.

(** X4. Every non-empty value of [--finetune] that the parser reads as an
    argument, the text [False] included, turns the fine-tuned model on:
    given last on an accepted command line, it makes the effective finetune
    value [True]; only the empty string gives [False]. *)
Theorem finetune_flag_value (argv : list string) (args : gmap string pyval)
    (v : string) :
  parse_args argv = Ok args →
  Argparse.parse_optional parser v = Argparse.Positional →
  ∃ args',
    parse_args (argv ++ ["--finetune"; v]) = Ok args' ∧
    args' = <["finetune" := PyBool (negb (bool_decide (v = "")))]> args ∧
    finetune args' = Ok (PyBool (negb (bool_decide (v = "")))).
Proof.
  intros Hparse Hv.
  pose proof (parse_args_last_flag argv args "--finetune" "--finetune" v
                (Argparse.add_argument "--finetune" Argparse.TBool) Argparse.TBool
                (PyBool (negb (bool_decide (v = "")))) Hparse) as Hlast.
  eexists. split_and!.
  - apply Hlast; [by vm_compute|done|done|done].
  - done.
  - change (Argparse.dest (Argparse.add_argument "--finetune" Argparse.TBool))
      with "finetune".
    unfold finetune. rewrite (if_else_getattr _ _ _ (PyBool (negb (bool_decide (v = ""))))).
    + cbn. by destruct (negb _).
    + by rewrite lookup_insert_eq.
Qed.

Lemma finetune_flag_value_witness :
  ∃ args',
    parse_args (["--num_shots"; "2"] ++ ["--finetune"; "False"]) = Ok args' ∧
    args' = <["finetune" := PyBool (negb (bool_decide ("False" = "")))]>
              (<["num_shots" := PyInt 2]> (Argparse.defaults parser)) ∧
    finetune args' = Ok (PyBool (negb (bool_decide ("False" = "")))).
Proof.
  exact (finetune_flag_value ["--num_shots"; "2"]
           (<["num_shots" := PyInt 2]> (Argparse.defaults parser)) "False"
           eq_refl eq_refl).
Defined.

(** X5. A shot count of zero never comes from the command line: when the
    effective shot count is the integer 0, it is the configured one. *)
Theorem zero_shots_from_configuration (argv : list string)
    (args eval_cfg : gmap string pyval) :
  parse_args argv = Ok args →
  num_shots args eval_cfg = Ok (PyInt 0) →
  eval_cfg !! "num_shots" = Some (PyInt 0).
Proof.
  intros Hparse Hz.
  destruct (parse_args_declared _ _ "num_shots" Hparse) as [v Hv];
    [unfold flags; rewrite !elem_of_cons; by eauto 10|].
  unfold num_shots in Hz. rewrite (if_else_getattr _ _ _ v Hv) in Hz.
  destruct (truthy v) eqn:Ht.
  - injection Hz as ->. done.
  - unfold getitem in Hz. destruct (eval_cfg !! "num_shots"); by simplify_eq.
Qed.

Lemma zero_shots_from_configuration_witness :
  (<["num_shots" := PyInt 0]> (∅ : gmap string pyval)) !! "num_shots" = Some (PyInt 0).
Proof.
  exact (zero_shots_from_configuration ["--num_shots"; "0"]
           (<["num_shots" := PyInt 0]> (Argparse.defaults parser))
           (<["num_shots" := PyInt 0]> ∅) eq_refl eq_refl).
Defined.

(** * More about the test split and the prompts *)

(** X6. For a shot count within the test split, the example slice and the
    predict slice are a positional partition of it: the examples are its
    first [k] rows, the rows to predict are all the others, in order, and no
    row is in both or lost. *)
Theorem examples_predict_partition {A : Type} (k : Z) (ds : list A) :
  0 ≤ k → k < Z.of_nat (length ds) →
  ∃ examples predict,
    dataset_examples k ds = Ok examples ∧
    dataset_predict k ds = Ok predict ∧
    examples ++ predict = ds ∧
    length examples = Z.to_nat k ∧
    length predict = (length ds - Z.to_nat k)%nat ∧
    (∀ i, predict !! i = ds !! (Z.to_nat k + i)%nat).
Proof.
  intros H0 Hk. exists (take (Z.to_nat k) ds), (drop (Z.to_nat k) ds). split_and!.
  - unfold dataset_examples. apply select_prefix; lia.
  - unfold dataset_predict. by apply select_suffix.
  - apply take_drop.
  - rewrite length_take. lia.
  - apply length_drop.
  - intros i. apply lookup_drop.
Qed.

Lemma examples_predict_partition_witness :
  ∃ examples predict,
    dataset_examples 1 [sample_row; sample_row; sample_row] = Ok examples ∧
    dataset_predict 1 [sample_row; sample_row; sample_row] = Ok predict ∧
    examples ++ predict = [sample_row; sample_row; sample_row].
Proof.
  destruct (examples_predict_partition 1 [sample_row; sample_row; sample_row])
    as (ex & pr & H1 & H2 & H3 & _); [lia|cbn; lia|].
  exists ex, pr. split_and!; [exact H1|exact H2|exact H3].
Defined.

(** X7. The prompt of a target row is made from its source text alone:
    two rows with the same classical text get the same prompt, whatever
    their translations, so the reference never enters the prompt of its
    own row. *)
Theorem prompt_ignores_answer (cot : bool) (prompt_examples : string) (r r' : Row) :
  classical r = classical r' →
  prompt cot prompt_examples (select_columns cot r)
  = prompt cot prompt_examples (select_columns cot r').
Proof. intros Hc. by rewrite !prompt_text, Hc. Qed.

Lemma prompt_ignores_answer_witness :
  prompt true "" (select_columns true sample_row)
  = prompt true "" (select_columns true
      {| classical := "AB"; modern := "other"; english := "another" |}).
Proof.
  exact (prompt_ignores_answer true "" sample_row
           {| classical := "AB"; modern := "other"; english := "another" |} eq_refl).
Defined.

Lemma join_length (sep : string) (l : list string) :
  l ≠ [] →
  String.length (join sep l)
  = (sum_list (String.length <$> l) + (length l - 1) * String.length sep)%nat.
Proof.
  induction l as [|x l IH]; [done|]. intros _.
  destruct l as [|y l].
  - cbn. lia.
  - change (join sep (x :: y :: l)) with (x +:+ sep +:+ join sep (y :: l)).
    rewrite !length_app_s, IH by done. cbn [fmap list_fmap sum_list length].
    unfold id. nia.
Qed.

Lemma join_cons {A : Type} (sep : string) (f : A → string) (x : A) (l : list A) :
  join sep (f <$> x :: l)
  = f x +:+ foldr (λ y rest, sep +:+ f y +:+ rest) "" l.
Proof.
  revert x. induction l as [|y l IH]; intros x.
  - cbn. by rewrite app_empty_r.
  - change (join sep (f <$> x :: y :: l))
      with (f x +:+ sep +:+ join sep (f <$> y :: l)).
    by rewrite IH.
Qed.

(** X8. The example block of [k > 0] shots is the first rendered row,
    followed by each later row with the separator of two newlines before
    it: [k] rows and [k - 1] separators, none before the first row and none
    after the last; so its length is the lengths of the rows plus
    [2 * (k - 1)]. *)
Theorem few_shot_block_length (cot : bool) (k : Z) (test : list Row) :
  0 < k → k ≤ Z.of_nat (length test) →
  ∃ (block : string) (first : Row) (others : list Row),
    prompt_examples cot k (dataset_test cot (take (Z.to_nat k) test)) = Ok block ∧
    take (Z.to_nat k) test = first :: others ∧
    block
    = formatted_row cot first
      +:+ foldr (λ r rest,
                   String "010" (String "010" "") +:+ formatted_row cot r +:+ rest)
            "" others ∧
    String.length block
    = (sum_list (String.length <$> (formatted_row cot <$> take (Z.to_nat k) test))
       + 2 * (Z.to_nat k - 1))%nat.
Proof.
  intros Hpos Hle.
  destruct (take (Z.to_nat k) test) as [|first others] eqn:Htake.
  { apply (f_equal length) in Htake. rewrite length_take_le in Htake by lia.
    cbn in Htake. lia. }
  assert (prompt_examples cot k (dataset_test cot (first :: others))
          = Ok (join (nl +:+ nl) (formatted_row cot <$> first :: others))) as Hblock.
  { unfold prompt_examples. rewrite bool_decide_false by lia.
    unfold dataset_test.
    by rewrite (comprehension_fmap _ _ (formatted_row cot))
      by (intros r; apply format_examples). }
  exists (join (nl +:+ nl) (formatted_row cot <$> first :: others)), first, others.
  split_and!; [done|done|apply (join_cons (nl +:+ nl))|].
  rewrite join_length by done.
  rewrite length_fmap, <- Htake, length_take_le by lia.
  change (String.length (nl +:+ nl)) with 2%nat. lia.
Qed.

Lemma few_shot_block_length_witness :
  ∃ block,
    prompt_examples false 2 (dataset_test false [sample_row; sample_row]) = Ok block ∧
    block = ("Classical: AB" +:+ nl +:+ "English: cd") +:+ nl +:+ nl
            +:+ "Classical: AB" +:+ nl +:+ "English: cd" ∧
    String.length block = 52%nat.
Proof.
  destruct (few_shot_block_length false 2 [sample_row; sample_row; sample_row])
    as (block & first & others & Hb & Htake & Hblock & Hlen); [lia|cbn; lia|].
  exists block. split_and!; [exact Hb| |exact Hlen].
  injection Htake as <- <-. exact Hblock.
Defined.

(** * More about the predictions *)

Lemma drop_chars_length (n : nat) (s : string) :
  String.length (drop_chars n s) = (String.length s - n)%nat.
Proof.
  revert s. induction n as [|n IH]; intros s; [cbn; lia|].
  destruct s as [|a s]; [done|]. cbn. apply IH.
Qed.

Lemma predictions_cons (o : list string) (outputs : list (list string))
    (p : string) (prompts : list string) :
  predictions (o :: outputs) (p :: prompts)
  = match o with
    | [] => Raise IndexError
    | g :: _ =>
        match predictions outputs prompts with
        | Ok preds => Ok (drop_chars (String.length p) g :: preds)
        | Raise e => Raise e
        end
    end.
Proof.
  unfold predictions. cbn [zip zip_with comprehension].
  destruct o as [|g rest]; [done|]. cbn.
  by destruct (comprehension _ _).
Qed.

(** X9. Line 134 raises only [IndexError], and exactly when a prompt's
    output list is empty. *)
Theorem predictions_raises (outputs : list (list string)) (prompts : list string) :
  (∀ e, predictions outputs prompts = Raise e → e = IndexError) ∧
  (predictions outputs prompts = Raise IndexError ↔
   ∃ i, (i < length prompts)%nat ∧ outputs !! i = Some []).
Proof.
  revert prompts. induction outputs as [|o outputs IH]; intros prompts.
  - split; [done|]. split; [done|]. by intros (i & _ & ?).
  - destruct prompts as [|p prompts].
    + split; [done|]. split; [done|]. intros (i & Hi & _). cbn in Hi. lia.
    + rewrite predictions_cons. destruct (IH prompts) as [IH1 IH2].
      destruct o as [|g rest].
      * split; [by intros e [= <-]|]. split; [|done].
        intros _. exists 0%nat. split; [cbn; lia|done].
      * destruct (predictions outputs prompts) as [preds|e] eqn:Hp.
        -- split; [done|]. split; [done|].
           intros ([|i] & Hi & Ho); [done|].
           cbn in Hi, Ho. assert (Ok preds = Raise IndexError) as Habs; [|done].
           apply IH2. exists i. split; [lia|done].
        -- rewrite (IH1 e eq_refl) in *. split; [by intros ? [= <-]|].
           split; [|done]. intros _.
           destruct (proj1 IH2 eq_refl) as (i & Hi & Ho).
           exists (S i). split; [cbn; lia|done].
Qed.

Lemma predictions_ok (outputs : list (list string)) (prompts preds : list string) :
  predictions outputs prompts = Ok preds →
  length preds = (length outputs `min` length prompts)%nat ∧
  (∀ i pr, preds !! i = Some pr →
     ∃ g rest p, outputs !! i = Some (g :: rest) ∧ prompts !! i = Some p ∧
                 pr = drop_chars (String.length p) g).
Proof.
  revert prompts preds. induction outputs as [|o outputs IH]; intros prompts preds.
  - intros [= <-]. done.
  - destruct prompts as [|p prompts]; [by intros [= <-]|].
    rewrite predictions_cons. destruct o as [|g rest]; [done|].
    destruct (predictions outputs prompts) as [preds'|] eqn:Hp; [|done].
    intros [= <-]. destruct (IH _ _ Hp) as [Hlen Hi]. split; [cbn; lia|].
    intros [|i] pr Hpr.
    + injection Hpr as <-. by exists g, rest, p.
    + by apply Hi.
Qed.

(** X10. When line 134 returns, there are as many predictions as the
    shorter of the outputs and the prompts (extra outputs or prompts are
    dropped without an error), and each prediction is its output's first
    text without its first [len(prompt)] characters: empty when that text
    is no longer than the prompt. *)
Theorem predictions_lengths (outputs : list (list string)) (prompts preds : list string) :
  predictions outputs prompts = Ok preds →
  length preds = (length outputs `min` length prompts)%nat ∧
  (∀ i pr, preds !! i = Some pr →
     ∃ g rest p, outputs !! i = Some (g :: rest) ∧ prompts !! i = Some p ∧
                 pr = drop_chars (String.length p) g ∧
                 String.length pr = (String.length g - String.length p)%nat).
Proof.
  intros Hp. destruct (predictions_ok _ _ _ Hp) as [Hlen Hi]. split; [done|].
  intros i pr Hpr. destruct (Hi i pr Hpr) as (g & rest & p & Ho & Hq & ->).
  exists g, rest, p. split_and!; try done. apply drop_chars_length.
Qed.

Lemma predictions_lengths_witness :
  length ["out"] = (length [["about"]; ["extra"]] `min` length ["ab"])%nat.
Proof.
  exact (proj1 (predictions_lengths [["about"]; ["extra"]] ["ab"] ["out"] eq_refl)).
Defined.

Lemma predictions_raises_witness :
  predictions [["about"]; []] ["ab"; "c"] = Raise IndexError.
Proof.
  apply (proj2 (predictions_raises [["about"]; []] ["ab"; "c"])).
  exists 1%nat. split; [cbn; lia|reflexivity].
Defined.

(** * Whole runs of the report stages *)

Section Runs.

Context {Results : Type}.
Variable apply_chat_template : string → string.
Variable pipeline : list string → result (list (list string)).
Variable compute : metric → list string → list (list string) → result Results.

(** X11. A run over ten predict rows or more, in which the pipeline returns
    one non-empty output list per prompt and no metric fails, ends normally
    and prints, in this order: the number of test samples, the three metric
    results (sacrebleu, meteor, chrf), and the first ten
    prediction/reference pairs. *)
Theorem report_complete_run (cot : bool) (prompt_examples : string)
    (rows : list Row) (outputs : list (list string)) (preds : list string)
    (a b c : Results) (out : list (event Results)) :
  (10 ≤ length rows)%nat →
  pipeline (prompt_of_row apply_chat_template cot prompt_examples <$> rows)
    = Ok outputs →
  length outputs = length rows →
  predictions outputs (prompt_of_row apply_chat_template cot prompt_examples <$> rows)
    = Ok preds →
  compute Sacrebleu preds ((λ r, [english r]) <$> rows) = Ok a →
  compute Meteor preds ((λ r, [english r]) <$> rows) = Ok b →
  compute Chrf preds ((λ r, [english r]) <$> rows) = Ok c →
  report apply_chat_template pipeline compute cot prompt_examples
    (dataset_test cot rows) out
  = (Ok (),
     out ++ [Print [PStr "# of test samples:"; PInt (Z.of_nat (length rows))];
             Called Sacrebleu preds ((λ r, [english r]) <$> rows);
             Print [PStr "------------- sacrebleu_results -------------"];
             Print [PResults a];
             Called Meteor preds ((λ r, [english r]) <$> rows);
             Print [PStr "------------- meteor_results -------------"];
             Print [PResults b];
             Called Chrf preds ((λ r, [english r]) <$> rows);
             Print [PStr "------------- chrf_results -------------"];
             Print [PResults c];
             Print [PStr ""];
             Print [PStr "------------- example -------------"]]
         ++ flat_map (example_lines preds ((λ r, [english r]) <$> rows)) (seq 0 10)).
Proof.
  intros Hten Hpipe Hlen Hpreds Ha Hb Hc.
  pose proof (predictions_ok _ _ _ Hpreds) as [Hplen _].
  rewrite length_fmap, Hlen, Nat.min_id in Hplen.
  unfold report. rewrite prompts_references_rows.
  unfold lift at 1. unfold mbind at 1, script_bind at 1. cbn beta iota.
  unfold mbind at 1, script_bind at 1.
  unfold generation, print, lift, mbind at 1 2, script_bind at 1 2.
  rewrite Hpipe, Hpreds, length_fmap.
  unfold mbind at 1, script_bind at 1.
  rewrite evaluation_stages, Ha, Hb, Hc.
  rewrite example_prints_ten.
  - by rewrite <- !(assoc_L (++)).
  - lia.
  - apply Forall_forall. intros i Hi%elem_of_seq.
    destruct (lookup_lt_is_Some_2 rows i) as [r Hr]; [lia|].
    exists (english r), []. by rewrite list_lookup_fmap, Hr.
Qed.

(** X12. When the generation pipeline raises, the run ends with that
    exception after printing the number of test samples: no metric is
    computed and no example is printed. *)
Theorem report_pipeline_failure (cot : bool) (prompt_examples : string)
    (rows : list Row) (e : exn) (out : list (event Results)) :
  pipeline (prompt_of_row apply_chat_template cot prompt_examples <$> rows)
    = Raise e →
  report apply_chat_template pipeline compute cot prompt_examples
    (dataset_test cot rows) out
  = (Raise e,
     out ++ [Print [PStr "# of test samples:"; PInt (Z.of_nat (length rows))]]).
Proof.
  intros Hpipe. unfold report. rewrite prompts_references_rows.
  unfold lift at 1. unfold mbind at 1, script_bind at 1. cbn beta iota.
  unfold mbind at 1, script_bind at 1.
  unfold generation, print, lift, mbind at 1 2, script_bind at 1 2.
  by rewrite Hpipe, length_fmap.
Qed.

End Runs.

Lemma report_complete_run_witness :
  (report (λ s, s) echo_pipeline all_metrics_up false ""
     (dataset_test false ten_rows) []).1 = Ok ().
Proof.
  exact (f_equal fst
    (report_complete_run (λ s, s) echo_pipeline all_metrics_up false "" ten_rows
       _ _ 10%nat 10%nat 10%nat []
       (le_n 10) eq_refl eq_refl eq_refl eq_refl eq_refl eq_refl)).
Defined.

Lemma report_pipeline_failure_witness :
  report (Results := nat) (λ s, s) (λ _, Raise (RuntimeError "cuda")) all_metrics_up
    false "" (dataset_test false [sample_row]) []
  = (Raise (RuntimeError "cuda"), [Print [PStr "# of test samples:"; PInt 1]]).
Proof.
  exact (report_pipeline_failure (λ s, s) (λ _, Raise (RuntimeError "cuda"))
           all_metrics_up false "" [sample_row] (RuntimeError "cuda") [] eq_refl).
Defined.

(** * Keyword arguments of the trainer *)

Lemma keywords_same_names {V : Type} (cfg : gmap string V) (keys : list string)
    (kw : gmap string V) :
  keywords cfg ((λ k, (k, k)) <$> keys) = Ok kw →
  ∀ k, kw !! k = if bool_decide (k ∈ keys) then cfg !! k else None.
Proof.
  revert kw. induction keys as [|k0 keys IH]; intros kw.
  - intros [= <-] k. by rewrite bool_decide_false by apply not_elem_of_nil.
  - rewrite fmap_cons. cbn [keywords]. unfold getitem.
    destruct (cfg !! k0) as [v|] eqn:Hv; [|done]. cbn [mbind result_bind].
    destruct (keywords cfg _) as [kw'|]; [|done]. intros [= <-] k.
    destruct (decide (k = k0)) as [->|Hne].
    + rewrite lookup_insert_eq, bool_decide_true by left. done.
    + rewrite lookup_insert_ne, (IH kw' eq_refl) by done.
      apply (f_equal (λ b : bool, if b then cfg !! k else None)).
      apply bool_decide_ext. rewrite elem_of_cons.
      split; [by right|by intros [?|?]].
Qed.

Lemma keywords_present {V : Type} (cfg : gmap string V) (keys : list string) :
  Forall (λ k, is_Some (cfg !! k)) keys →
  ∃ kw, keywords cfg ((λ k, (k, k)) <$> keys) = Ok kw.
Proof.
  induction 1 as [|k0 keys [v Hv] _ [kw IH]]; [by eexists|].
  rewrite fmap_cons. cbn [keywords]. unfold getitem. rewrite Hv.
  cbn [mbind result_bind]. rewrite IH. by eexists.
Qed.

Lemma keywords_missing {V : Type} (cfg : gmap string V)
    (before after : list string) (k : string) :
  Forall (λ k', is_Some (cfg !! k')) before → cfg !! k = None →
  keywords cfg ((λ k, (k, k)) <$> before ++ k :: after) = Raise (KeyError k).
Proof.
  intros Hb Hk. induction Hb as [|k0 before [v Hv] _ IH].
  - cbn [app fmap list_fmap keywords]. unfold getitem. by rewrite Hk.
  - cbn [app]. rewrite fmap_cons. cbn [keywords]. unfold getitem. rewrite Hv.
    cbn [mbind result_bind]. by rewrite IH.
Qed.

(** X13. Lines 83-101 call the constructor of [TrainingArguments] with the
    sixteen training fields of the configuration, unchanged, and nothing
    else (other fields are not forwarded); with the sixteen fields present
    the outcome is the outcome of that call: the object it builds, or the
    error its own validation raises.  When a field is missing the
    constructor is not called: whatever the constructor, the script stops
    with [KeyError] for the first missing field in the order of the call. *)
Theorem training_arguments_fields {V T : Type}
    (TrainingArguments : gmap string V → result T) (train_args_cfg : gmap string V) :
  (Forall (λ k, is_Some (train_args_cfg !! k)) training_keys →
   ∃ kw,
     training_arguments TrainingArguments train_args_cfg = TrainingArguments kw ∧
     ∀ k, kw !! k = if bool_decide (k ∈ training_keys)
                    then train_args_cfg !! k else None) ∧
  (∀ before k after,
     training_keys = before ++ k :: after →
     Forall (λ k', is_Some (train_args_cfg !! k')) before →
     train_args_cfg !! k = None →
     training_arguments TrainingArguments train_args_cfg = Raise (KeyError k)).
Proof.
  unfold training_arguments. split.
  - intros [kw Hkw]%keywords_present. exists kw. rewrite Hkw. split; [done|].
    by apply keywords_same_names.
  - intros before k after -> Hb Hk. by rewrite keywords_missing.
Qed.

Lemma training_arguments_fields_witness :
  training_arguments sample_constructor
    (<["fp16" := PyBool true]> (<["bf16" := PyBool true]> sample_training_cfg))
  = Raise ValueError ∧
  training_arguments sample_constructor (delete "bf16" sample_training_cfg)
  = Raise (KeyError "bf16").
Proof.
  split.
  - destruct (proj1 (training_arguments_fields sample_constructor
                (<["fp16" := PyBool true]>
                   (<["bf16" := PyBool true]> sample_training_cfg))))
      as (kw & -> & Hkw).
    + apply (bool_decide_unpack _). vm_compute. reflexivity.
    + unfold sample_constructor. rewrite (Hkw "fp16"), (Hkw "bf16"). reflexivity.
  - apply (proj2 (training_arguments_fields sample_constructor
                    (delete "bf16" sample_training_cfg))
             ["output_dir"; "num_train_epochs"; "per_device_train_batch_size";
              "gradient_accumulation_steps"; "optim"; "save_steps"; "logging_steps";
              "learning_rate"; "weight_decay"; "fp16"]
             "bf16"
             ["max_grad_norm"; "max_steps"; "warmup_ratio"; "group_by_length";
              "lr_scheduler_type"]).
    + reflexivity.
    + apply (bool_decide_unpack _). vm_compute. reflexivity.
    + vm_compute. reflexivity.
Defined.

(** * The fine-tuning script's artifacts, seen from the evaluation script *)

Section Handover.

Context {Model Adapter Tokenizer : Type}.

(** The loaders of the fine-tuning script and of the evaluation script. *)
Variable finetune_from_pretrained : string → result Model.
Variable from_pretrained : string → result Model.
Variable tokenizer_from_pretrained : string → result Tokenizer.
Variable merge_and_unload : Model * Adapter → Model.

Lemma save_and_merge_directories (model_path new_model_path : string)
    (trained : Adapter) (tokenizer : Tokenizer) (base : Model)
    (w : world Model Adapter Tokenizer) :
  finetune_from_pretrained model_path = Ok base →
  ∃ w',
    save_and_merge finetune_from_pretrained merge_and_unload model_path
      new_model_path trained tokenizer w = (Ok (), w') ∧
    adapter_files (listdir w' (new_model_path +:+ "-lora")) = Some trained ∧
    adapter_files (listdir w' new_model_path)
    = adapter_files (listdir w new_model_path) ∧
    model_files (listdir w' new_model_path)
    = Some (merge_and_unload (base, trained)) ∧
    tokenizer_files (listdir w' new_model_path) = Some tokenizer.
Proof.
  intros Hbase.
  pose proof (lora_path_differs new_model_path) as Hne.
  assert (new_model_path ≠ new_model_path +:+ "-lora") as Hne' by done.
  eexists. split.
  - unfold save_and_merge, save_adapter, print_line, lift, peft_from_pretrained,
      save_model, save_tokenizer, mbind, script_bind.
    rewrite Hbase. unfold listdir; cbn. rewrite lookup_insert_eq. cbn.
    reflexivity.
  - unfold listdir; cbn. split_and!; by lookup_inserts.
Qed.

(** X14. After the fine-tuning script has run on a [new_model_path] that
    held no adapter, the evaluation script with the same paths and the
    finetune flag on fails to load the adapter: it looks in
    [new_model_path], where only the merged model and the tokenizer were
    saved.  With the flag off it loads the base model. *)
Theorem evaluation_finds_no_adapter (model_path new_model_path : string)
    (trained : Adapter) (tokenizer : Tokenizer) (base m : Model) (t : Tokenizer)
    (w : world Model Adapter Tokenizer) :
  finetune_from_pretrained model_path = Ok base →
  adapter_files (listdir w new_model_path) = None →
  from_pretrained model_path = Ok m →
  tokenizer_from_pretrained model_path = Ok t →
  ∃ w',
    save_and_merge finetune_from_pretrained merge_and_unload model_path
      new_model_path trained tokenizer w = (Ok (), w') ∧
    load_model from_pretrained tokenizer_from_pretrained merge_and_unload
      model_path new_model_path true w' = (Raise ValueError, w') ∧
    load_model from_pretrained tokenizer_from_pretrained merge_and_unload
      model_path new_model_path false w' = (Ok (m, t), w').
Proof.
  intros Hbase Hfresh Hm Ht.
  destruct (save_and_merge_directories model_path new_model_path trained tokenizer
              base w Hbase) as (w' & Hrun & _ & Hadapter & _).
  exists w'. split_and!; [done|..].
  - unfold load_model, lift, peft_from_pretrained, mbind, script_bind.
    by rewrite Hm, Ht, Hadapter, Hfresh.
  - unfold load_model, lift, mbind, script_bind. by rewrite Hm, Ht.
Qed.

(** X15. Given the adapter directory instead (the path with [-lora]), the
    evaluation script loads the adapter that the fine-tuning script trained
    and merges it into its base model; loading writes nothing. *)
Theorem evaluation_loads_lora_directory (model_path new_model_path : string)
    (trained : Adapter) (tokenizer : Tokenizer) (base m : Model) (t : Tokenizer)
    (w : world Model Adapter Tokenizer) :
  finetune_from_pretrained model_path = Ok base →
  from_pretrained model_path = Ok m →
  tokenizer_from_pretrained model_path = Ok t →
  ∃ w',
    save_and_merge finetune_from_pretrained merge_and_unload model_path
      new_model_path trained tokenizer w = (Ok (), w') ∧
    load_model from_pretrained tokenizer_from_pretrained merge_and_unload
      model_path (new_model_path +:+ "-lora") true w'
    = (Ok (merge_and_unload (m, trained), t), w').
Proof.
  intros Hbase Hm Ht.
  destruct (save_and_merge_directories model_path new_model_path trained tokenizer
              base w Hbase) as (w' & Hrun & Hlora & _).
  exists w'. split; [done|].
  unfold load_model, lift, peft_from_pretrained, mbind, script_bind.
  by rewrite Hm, Ht, Hlora.
Qed.

End Handover.

Lemma evaluation_finds_no_adapter_witness :
  ∃ w',
    save_and_merge (Tokenizer := string) sample_hub sample_merge "base" "han" 5%nat "tok"
      {| files := ∅; console := [] |} = (Ok (), w') ∧
    load_model sample_hub sample_tokenizer_hub sample_merge "base" "han" true w'
    = (Raise ValueError, w').
Proof.
  assert (adapter_files (listdir (Model := nat) (Adapter := nat) (Tokenizer := string)
            {| files := ∅; console := [] |} "han") = None) as Hfresh by reflexivity.
  destruct (evaluation_finds_no_adapter (Tokenizer := string) sample_hub sample_hub
              sample_tokenizer_hub sample_merge "base" "han" 5%nat "tok" 7%nat 7%nat
              "tok" {| files := ∅; console := [] |} eq_refl Hfresh eq_refl eq_refl)
    as (w' & Hrun & Hload & _).
  exists w'. split; [exact Hrun|exact Hload].
Defined.

Lemma evaluation_loads_lora_directory_witness :
  ∃ w',
    save_and_merge (Tokenizer := string) sample_hub sample_merge "base" "han" 5%nat "tok"
      {| files := ∅; console := [] |} = (Ok (), w') ∧
    load_model sample_hub sample_tokenizer_hub sample_merge "base" "han-lora" true w'
    = (Ok (12%nat, "tok"), w').
Proof.
  destruct (evaluation_loads_lora_directory (Tokenizer := string) sample_hub sample_hub
              sample_tokenizer_hub sample_merge "base" "han" 5%nat "tok" 7%nat 7%nat
              "tok" {| files := ∅; console := [] |} eq_refl eq_refl eq_refl)
    as (w' & Hrun & Hload).
  exists w'. split; [exact Hrun|exact Hload].
Defined.
